(** * WireViz harness assembly: designator resolution, connection-set
      normalization, alternating-type instantiation and wire connection.

    A shallow embedding of [parse] (src/wireviz/wireviz.py) and of its two
    nested helpers [resolve_designator] and [check_type]/[alternate_type],
    together with the properties the harness description states about them.

    Python exceptions are values of [error]; a raising function returns [Err].
    The dictionaries captured by the closures ([designators_and_templates],
    [autogenerated_designators]) are threaded explicitly as a [resolver]. *)

From Stdlib Require Import ZArith Lia Ascii String.
From stdpp Require Import base option list strings pretty gmap.

Open Scope string_scope.
Open Scope list_scope.

(** ** Errors and the result monad *)

(** The two alternating component types, line 189. *)
Inductive ctype := connector | cable.

#[global] Instance ctype_eq_dec : EqDecision ctype.
Proof. solve_decision. Defined.

(** One constructor per [raise] of the source (named after the error kinds of
    the harness description), followed by the Python runtime errors that the
    indexing and unpacking expressions of the source can raise. *)
Inductive error :=
  | AmbiguousSeparatorError (inp : string)                            (* line 160 *)
  | DesignatorConflictError (designator old new : string)             (* line 173 *)
  | MissingConnectionCountError                                       (* line 220 *)
  | ConnectionCountMismatchError                                      (* line 224 *)
  | TypeAlternationViolationError
      (expected : ctype) (designator template : string) (actual : ctype) (* line 198 *)
  | UnknownTemplateError (template : string)                          (* line 292 *)
  | PyIndexError     (* [l[0]] on an empty list *)
  | PyValueError     (* tuple unpacking of the wrong length, [list.index] *)
  | PyKeyError       (* [d[k]] on a missing key *)
  | PyTypeError.     (* an operation on a value of the wrong Python type *)

Inductive result (A : Type) :=
  | Ok (a : A)
  | Err (e : error).
Arguments Ok {A} a.
Arguments Err {A} e.

#[global] Instance result_ret : MRet result := @Ok.
#[global] Instance result_bind : MBind result := λ A B f r,
  match r with Ok a => f a | Err e => Err e end.

(** A [for] loop whose body may raise and which threads the mutated state. *)
Fixpoint foldM {S X : Type} (body : S → X → result S) (s : S) (xs : list X) : result S :=
  match xs with
  | [] => Ok s
  | x :: xs' => s' ← body s x; foldM body s' xs'
  end.

(** A loop that rewrites every element of a list in place while threading a
    state: element [i] is replaced by the first component of [body s x]. *)
Fixpoint mapM_st {S X Y : Type} (body : X → S → result (Y * S)) (xs : list X) (s : S)
    : result (list Y * S) :=
  match xs with
  | [] => Ok ([], s)
  | x :: xs' =>
      '(y, s1) ← body x s;
      '(ys, s2) ← mapM_st body xs' s1;
      Ok (y :: ys, s2)
  end.

(** ** Python string primitives on a one-character separator *)

(** [inp.count(separator)]. *)
Fixpoint str_count (sep : ascii) (s : string) : nat :=
  match s with
  | EmptyString => 0
  | String c s' => (if decide (c = sep) then 1 else 0) + str_count sep s'
  end.

(** [separator in inp]. *)
Fixpoint str_contains (sep : ascii) (s : string) : bool :=
  match s with
  | EmptyString => false
  | String c s' => if decide (c = sep) then true else str_contains sep s'
  end.

(** [inp.split(separator)]: the pieces between the occurrences of the
    separator, always at least one piece. *)
Fixpoint str_split (sep : ascii) (s : string) : list string :=
  match s with
  | EmptyString => [EmptyString]
  | String c s' =>
      if decide (c = sep) then EmptyString :: str_split sep s'
      else match str_split sep s' with
           | [] => [String c EmptyString]
           | p :: ps => String c p :: ps
           end
  end.

(** ** The designator resolver, lines 115-117 and 157-185 *)

Record resolver := Resolver {
  designators_and_templates : gmap string string;   (* line 115 *)
  autogenerated_designators : gmap string nat       (* line 117 *)
}.

Definition empty_resolver : resolver := Resolver ∅ ∅.

Section Resolver.
(** [harness.options.template_separator] and [AUTOGENERATED_PREFIX]
    (wv_dataclasses) are not defined in the files at hand: both are taken
    as parameters. *)
Variable separator : ascii.
Variable AUTOGENERATED_PREFIX : string.

(** Lines 166-169: the f-string of the generated name. *)
Definition autogenerated_name (template : string) (n : nat) : string :=
  AUTOGENERATED_PREFIX +:+ template +:+ "_" +:+ pretty n.

(** Lines 171-178: bind or confirm [designator → template]. *)
Definition bind_designator (template designator : string) (dt : gmap string string)
    : result (gmap string string) :=
  match dt !! designator with
  | Some old =>
      if decide (old = template) then Ok dt
      else Err (DesignatorConflictError designator old template)
  | None => Ok (<[designator := template]> dt)
  end.

Definition resolve_designator (inp : string) (st : resolver)
    : result ((string * string) * resolver) :=
  let dt := designators_and_templates st in
  let ag := autogenerated_designators st in
  if str_contains separator inp then
    if decide (1 < str_count separator inp) then Err (AmbiguousSeparatorError inp)
    else
      match str_split separator inp with
      | [template; designator] =>
          if decide (designator = "") then
            let n := default 0 (ag !! template) + 1 in
            let designator := autogenerated_name template n in
            dt' ← bind_designator template designator dt;
            Ok ((template, designator), Resolver dt' (<[template := n]> ag))
          else
            dt' ← bind_designator template designator dt;
            Ok ((template, designator), Resolver dt' ag)
      | _ => Err PyValueError
      end
  else
    match dt !! inp with
    | Some _ => Ok ((inp, inp), st)
    | None => Ok ((inp, inp), Resolver (<[inp := inp]> dt) ag)
    end.

(** A sequence of resolutions within one build. *)
Definition resolve_all (toks : list string) (st : resolver)
    : result (list (string * string) * resolver) :=
  mapM_st resolve_designator toks st.

(** The tokens that reach lines 163-169: one separator, nothing after it. *)
Definition is_autogeneration_request (inp : string) : bool :=
  match str_split separator inp with
  | [_; ""] => true
  | _ => false
  end.

(** Of a sequence of resolutions, given as the tokens paired with the
    [(template, designator)] each one returned: the designators generated
    for [template], in generation order, and the designators the user
    chose. *)
Definition autogenerated_for (template : string)
    (trace : list (string * (string * string))) : list string :=
  (λ x, x.2.2) <$>
    filter (λ x, is_autogeneration_request x.1 = true ∧ x.2.1 = template) trace.

Definition user_chosen (trace : list (string * (string * string))) : list string :=
  (λ x, x.2.2) <$> filter (λ x, is_autogeneration_request x.1 = false) trace.

End Resolver.

(** The value of the reserved prefix used in the closed examples. *)
Definition example_prefix : string := "AUTOGENERATED_".

(** ** Connection sets, lines 206-260 *)

(** One entry of a connection set. The input holds strings, lists of tokens
    and pin-range mappings; the list of single-key [{designator: pin}] records
    is what lines 252-258 write back in their place. A mapping is kept as its
    ordered list of items, since the source reads [list(entry.keys())[0]]. *)
Inductive entry :=
  | Str (s : string)
  | Lst (l : list string)
  | Dct (kvs : list (string * string))
  | Recs (l : list (string * Z)).

(** A normalized chain position: one [(designator, pin)] per parallel path. *)
Abbreviation row := (list (string * Z)).

(** Modelled from the spec: the Connection record that [Harness.connect]
    (wv_harness, not among the files at hand) receives; its six fields are
    the six arguments of the call at lines 325-327. *)
Record Connection := mkConnection {
  from_name : option string;
  from_pin : option Z;
  via_name : string;
  via_pin : Z;
  to_name : option string;
  to_pin : option Z
}.

(** Insertion-ordered Python dictionaries with string keys. *)
Definition dict_mem {V : Type} (k : string) (d : list (string * V)) : bool :=
  bool_decide (k ∈ d.*1).

Fixpoint dict_set {V : Type} (k : string) (v : V) (d : list (string * V))
    : list (string * V) :=
  match d with
  | [] => [(k, v)]
  | (k', v') :: d' => if decide (k' = k) then (k, v) :: d' else (k', v') :: dict_set k v d'
  end.

(** [list(map(list, zip( *rows )))], line 302: [zip] stops at the shortest row
    and yields nothing when there is no row at all. *)
Fixpoint zip_star {A : Type} (fuel : nat) (rows : list (list A)) : list (list A) :=
  match fuel with
  | 0 => []
  | S fuel' =>
      match mapM head rows with
      | Some heads => heads :: zip_star fuel' (tail <$> rows)
      | None => []
      end
  end.

Definition transpose {A : Type} (rows : list (list A)) : list (list A) :=
  match rows with
  | [] => []
  | r :: _ => zip_star (length r) rows
  end.

Section Parse.
Variable separator : ascii.
Variable AUTOGENERATED_PREFIX : string.
(** [expand] (wv_utils) is not among the files at hand: the pin-list
    expansion is a parameter of the build. *)
Variable expand : string → list Z.
(** The attribute bag of a template. *)
Context {attribs : Type} `{EqDecision attribs}.

(** Modelled from the spec: the [Harness] object (wv_harness, not among the
    files at hand) as far as [parse] uses it: the live connector and cable
    instances by designator, in creation order, and the emitted
    connections. *)
Record harness := Harness {
  connectors : list (string * attribs);
  cables : list (string * attribs);
  connections : list Connection
}.

Definition empty_harness : harness := Harness [] [] [].

(** Modelled from the spec: [add_connector] / [add_cable] instantiate the
    template under the designator; [connect] emits one Connection record. *)
Definition add_connector (designator : string) (a : attribs) (h : harness) : harness :=
  Harness (dict_set designator a (connectors h)) (cables h) (connections h).

Definition add_cable (designator : string) (a : attribs) (h : harness) : harness :=
  Harness (connectors h) (dict_set designator a (cables h)) (connections h).

Definition connect (c : Connection) (h : harness) : harness :=
  Harness (connectors h) (cables h) (connections h ++ [c]).

(** *** Lines 208-228: the number of parallel connections *)

(** The body of the loop at lines 210-217. *)
Definition count_entry (connectioncount : list nat) (e : entry) : result (list nat) :=
  match e with
  | Lst l => Ok (connectioncount ++ [length l])
  | Recs l => Ok (connectioncount ++ [length l])
  | Dct kvs =>
      match kvs with
      | [] => Err PyIndexError
      | (_, v) :: _ => Ok (connectioncount ++ [length (expand v)])
      end
  | Str _ => Ok connectioncount
  end.

Definition connectioncounts (connection_set : list entry) : result (list nat) :=
  foldM count_entry [] connection_set.

(** Lines 219-228: [any], [len(set(...)) > 1], [connectioncount[0]]. *)
Definition agree (connectioncount : list nat) : result nat :=
  if decide (Exists (λ n, n ≠ 0) connectioncount) then
    if decide (1 < size (list_to_set connectioncount : gset nat)) then
      Err ConnectionCountMismatchError
    else
      match connectioncount with
      | [] => Err PyIndexError
      | n :: _ => Ok n
      end
  else Err MissingConnectionCountError.

Definition get_connectioncount (connection_set : list entry) : result nat :=
  connectioncount ← connectioncounts connection_set;
  agree connectioncount.

(** The cardinality candidate of an entry in the words of the harness
    description, for comparison with the loop above: a list yields its
    length, a single-key mapping the length of its expanded pin list, a
    string none. *)
Definition candidate (e : entry) : option nat :=
  match e with
  | Lst l => Some (length l)
  | Dct [(_, v)] => Some (length (expand v))
  | _ => None
  end.

(** The entries an input connection set is made of. *)
Definition input_entry (e : entry) : bool :=
  match e with
  | Str _ | Lst _ | Dct [_] => true
  | _ => false
  end.

(** *** Lines 230-233: string entries become lists *)
Definition expand_string (n : nat) (e : entry) : entry :=
  match e with
  | Str s => Lst (replicate n s)
  | _ => e
  end.

(** *** Lines 235-249: every token is resolved *)
Definition resolve_entry (e : entry) (st : resolver) : result (entry * resolver) :=
  match e with
  | Lst l =>
      '(rs, st') ← mapM_st (resolve_designator separator AUTOGENERATED_PREFIX) l st;
      Ok (Lst (rs.*2), st')
  | Dct kvs =>
      match kvs with
      | [] => Err PyIndexError
      | (key, value) :: _ =>
          '(td, st') ← resolve_designator separator AUTOGENERATED_PREFIX key st;
          Ok (Dct [(td.2, value)], st')
      end
  | Str s => Ok (Str s, st)
  | Recs [] => Ok (Recs [], st)
  | Recs (_ :: _) => Err PyTypeError     (* a dict where a token is expected *)
  end.

(** *** Lines 251-260: every entry becomes a row of records. Strings were
    all replaced at lines 231-233; a record cannot be a dictionary key. *)
Definition expand_pins (e : entry) : result row :=
  match e with
  | Lst l => Ok ((λ designator, (designator, 1%Z)) <$> l)
  | Dct kvs =>
      match kvs with
      | [] => Err PyIndexError
      | (designator, value) :: _ => Ok ((λ pin, (designator, pin)) <$> expand value)
      end
  | Str _ => Err PyTypeError
  | Recs [] => Ok []
  | Recs (_ :: _) => Err PyTypeError
  end.

(** *** Lines 189-204: the alternation cursor *)
Definition check_type (designator template : string) (actual_type : ctype)
    (expected_type : option ctype) : result ctype :=
  let expected := default actual_type expected_type in
  if decide (actual_type ≠ expected) then
    Err (TypeAlternationViolationError expected designator template actual_type)
  else Ok expected.

Definition alternate_type (expected_type : option ctype) : result ctype :=
  match expected_type with
  | None => Err PyValueError
  | Some connector => Ok cable
  | Some cable => Ok connector
  end.

(** *** Lines 264-297: components are generated *)
Variable template_connectors : gmap string attribs.
Variable template_cables : gmap string attribs.

Section Generate.
Variable dt : gmap string string.   (* [designators_and_templates] *)

(** The body of the inner loop, lines 271-294. *)
Definition generate_item (st : harness * option ctype) (item : string * Z)
    : result (harness * option ctype) :=
  let '(h, expected_type) := st in
  let designator := item.1 in
  match dt !! designator with
  | None => Err PyKeyError
  | Some template =>
      if dict_mem designator (connectors h) then
        e ← check_type designator template connector expected_type;
        Ok (h, Some e)
      else match template_connectors !! template with
      | Some a =>
          e ← check_type designator template connector expected_type;
          Ok (add_connector designator a h, Some e)
      | None =>
          if dict_mem designator (cables h) then
            e ← check_type designator template cable expected_type;
            Ok (h, Some e)
          else match template_cables !! template with
          | Some a =>
              e ← check_type designator template cable expected_type;
              Ok (add_cable designator a h, Some e)
          | None => Err (UnknownTemplateError template)
          end
      end
  end.

(** One iteration of the outer loop, lines 269-297. *)
Definition generate_row (st : harness * option ctype) (r : row)
    : result (harness * option ctype) :=
  st' ← foldM generate_item st r;
  e ← alternate_type st'.2;
  Ok (st'.1, Some e).

(** Lines 264-297, from the reset of the cursor on. *)
Definition generate_components (h : harness) (rows : list row) : result harness :=
  st ← foldM generate_row (h, None) rows;
  Ok st.1.
End Generate.

(** The notions in which the alternation of types is stated. *)

(** The type of the live instance a designator refers to, read the way
    lines 274 and 283 test it. *)
Definition kind_of (h : harness) (designator : string) : option ctype :=
  if dict_mem designator (connectors h) then Some connector
  else if dict_mem designator (cables h) then Some cable
  else None.

Definition flip (t : ctype) : ctype :=
  match t with connector => cable | cable => connector end.

(** The type expected at chain position [i] when position 0 has [t0]. *)
Fixpoint nth_type (t0 : ctype) (i : nat) : ctype :=
  match i with
  | 0 => t0
  | S i' => nth_type (flip t0) i'
  end.

(** The template and the [actual_type] that the branches of lines 272-294
    hand to [check_type] for a designator. *)
Definition component_type (dt : gmap string string) (h : harness) (designator : string)
    : result (string * ctype) :=
  match dt !! designator with
  | None => Err PyKeyError
  | Some template =>
      if dict_mem designator (connectors h) then Ok (template, connector)
      else if decide (is_Some (template_connectors !! template)) then Ok (template, connector)
      else if dict_mem designator (cables h) then Ok (template, cable)
      else if decide (is_Some (template_cables !! template)) then Ok (template, cable)
      else Err (UnknownTemplateError template)
  end.

(** A designator whose instance has type [t] for the rest of the build:
    a connector instance exists, or a cable instance exists and the
    template bound to the designator is no connector template. *)
Definition settled (dt : gmap string string) (h : harness) (designator : string)
    (t : ctype) : Prop :=
  match t with
  | connector => dict_mem designator (connectors h) = true
  | cable =>
      dict_mem designator (connectors h) = false ∧
      dict_mem designator (cables h) = true ∧
      ∃ template, dt !! designator = Some template ∧
                  template_connectors !! template = None
  end.

(** *** Lines 304-327: components are connected *)

(** [get_single_key_and_value(entry[i])], [None] when [i] is out of range. *)
Definition neighbour (path : row) (i : nat) : result (option string * option Z) :=
  match path !! i with
  | Some (name, pin) => Ok (Some name, Some pin)
  | None => Err PyIndexError
  end.

(** The body of the inner loop, lines 307-327. *)
Definition connect_item (path : row) (h : harness) (it : nat * (string * Z))
    : result harness :=
  let '(index_item, item) := it in
  let designator := item.1 in
  if dict_mem designator (cables h) then
    from ← (if decide (index_item = 0) then Ok (None, None)
            else neighbour path (index_item - 1));
    to ← (if decide (index_item = length path - 1) then Ok (None, None)
          else neighbour path (index_item + 1));
    Ok (connect (mkConnection from.1 from.2 designator item.2 to.1 to.2) h)
  else Ok h.

Definition enumerate {A : Type} (l : list A) : list (nat * A) :=
  zip (seq 0 (length l)) l.

Definition connect_path (h : harness) (path : row) : result harness :=
  foldM (connect_item path) h (enumerate path).

Definition connect_components (h : harness) (paths : list row) : result harness :=
  foldM connect_path h paths.

(** The notions in which the emitted connections are stated. *)

(** The (path, chain position) pairs whose designator is a cable instance,
    path by path and along each path. *)
Definition cable_positions (h : harness) (paths : list row) : list (nat * nat) :=
  enumerate paths ≫= λ jp,
    enumerate jp.2 ≫= λ it,
      if dict_mem it.2.1 (cables h) then [(jp.1, it.1)] else [].

(** The record for the cable at position [i] of a path: the previous
    position, or nothing at the start of the path; the cable and its pin;
    the next position, or nothing at the end of the path. *)
Definition connection_at (path : row) (i : nat) (item : string * Z) : Connection :=
  let from := if decide (i = 0) then None else path !! (i - 1) in
  let to := if decide (i = length path - 1) then None else path !! (i + 1) in
  mkConnection (fst <$> from) (snd <$> from) item.1 item.2 (fst <$> to) (snd <$> to).

Definition path_connections (h : harness) (path : row) : list Connection :=
  enumerate path ≫= λ it,
    if dict_mem it.2.1 (cables h) then [connection_at path it.1 it.2] else [].

(** *** The body of the loop over the connection sets, lines 206-327 *)

(** The state of one build. [yaml_connections] is the list object
    [yaml_data["connections"]]; by line 151 [connection_sets] is the same
    object, and each [connection_set] of the loop is one of its elements,
    so the assignments [connection_set[index] = ...] are updates of it. *)
Record build := Build {
  yaml_connections : list (list entry);
  resolver_state : resolver;
  harness_state : harness
}.

(** Lines 208-260: the connection set at position [i] is normalized in
    place; the rows are also returned, as the value the local name
    [connection_set] refers to afterwards. *)
Definition normalize (b : build) (i : nat) : result (list row * build) :=
  match yaml_connections b !! i with
  | None => Err PyIndexError
  | Some connection_set =>
      connectioncount ← get_connectioncount connection_set;
      (* lines 231-233 *)
      let store1 := <[i := expand_string connectioncount <$> connection_set]>
                      (yaml_connections b) in
      connection_set ← (match store1 !! i with
                        | Some cs => Ok cs | None => Err PyIndexError end);
      (* lines 236-249 *)
      '(resolved, r) ← mapM_st resolve_entry connection_set (resolver_state b);
      let store2 := <[i := resolved]> store1 in
      connection_set ← (match store2 !! i with
                        | Some cs => Ok cs | None => Err PyIndexError end);
      (* lines 252-260 *)
      rows ← mapM expand_pins connection_set;
      let store3 := <[i := Recs <$> rows]> store2 in
      Ok (rows, Build store3 r (harness_state b))
  end.

Definition process_connection_set (b : build) (i : nat) : result build :=
  '(rows, b1) ← normalize b i;
  (* lines 264-297 *)
  h ← generate_components (designators_and_templates (resolver_state b1))
        (harness_state b1) rows;
  (* line 302 rebinds the local name: the store keeps the rows *)
  h' ← connect_components h (transpose rows);
  Ok (Build (yaml_connections b1) (resolver_state b1) h').

(** Lines 115-117, 151 and 206: the loop over all connection sets of one
    build, from the empty resolver and harness. *)
Definition initial_build (connection_sets : list (list entry)) : build :=
  Build connection_sets empty_resolver empty_harness.

Definition process_connection_sets (connection_sets : list (list entry)) : result build :=
  foldM process_connection_set (initial_build connection_sets)
        (seq 0 (length connection_sets)).

(** *** The bill of materials *)

(** Modelled from the spec: [Harness.populate_bom] (wv_harness, not among
    the files at hand). The grouping key of an instance is what it holds
    apart from its designator, that is its type and its attribute bag; a row
    carries the running quantity and the contributing designators, and rows
    stand in first-seen order. The connector instances are read first, then
    the cable instances, each in creation order. *)
Record BomEntry := mkBomEntry {
  bom_type : ctype;
  bom_attribs : attribs;
  bom_qty : nat;
  bom_designators : list string
}.

Fixpoint bom_add (ty : ctype) (a : attribs) (designator : string) (bom : list BomEntry)
    : list BomEntry :=
  match bom with
  | [] => [mkBomEntry ty a 1 [designator]]
  | e :: bom' =>
      if decide (bom_type e = ty ∧ bom_attribs e = a) then
        mkBomEntry ty a (bom_qty e + 1) (bom_designators e ++ [designator]) :: bom'
      else e :: bom_add ty a designator bom'
  end.

Definition populate_bom (h : harness) : list BomEntry :=
  let bom := foldl (λ bom '(d, a), bom_add connector a d bom) [] (connectors h) in
  foldl (λ bom '(d, a), bom_add cable a d bom) bom (cables h).

(** Lines 206-339 of [parse]: the harness is populated from the connection
    sets, then the bill of materials is computed. The manual lines of
    [additional_bom_items] and the output files are left out. *)
Definition parse (connection_sets : list (list entry)) : result (build * list BomEntry) :=
  b ← process_connection_sets connection_sets;
  Ok (b, populate_bom (harness_state b)).

End Parse.

(** Modelled from the spec: [expand] (wv_utils, not among the files at hand).
    The text is a comma-separated list of parts, a part being a pin number or
    a range [a-b] that stands for the integers from [a] to [b]; for instance
    the text 1-3,6 stands for 1, 2, 3, 6. Only decimal digits are read; the
    spec leaves the outcome on other texts to the caller, here a part that is
    not a number stands for no pin. *)
Definition digit_value (c : ascii) : option Z :=
  let n := Z.of_nat (nat_of_ascii c) in
  if decide (48 ≤ n ≤ 57)%Z then Some (n - 48)%Z else None.

Fixpoint read_number_go (acc : Z) (s : string) : option Z :=
  match s with
  | EmptyString => Some acc
  | String c s' => d ← digit_value c; read_number_go (10 * acc + d) s'
  end.

Definition read_number (s : string) : option Z :=
  match s with
  | EmptyString => None
  | _ => read_number_go 0 s
  end.

Definition expand_part (part : string) : list Z :=
  match str_split "-" part with
  | [a] => option_list (read_number a)
  | [a; b] =>
      match read_number a, read_number b with
      | Some a, Some b => (λ k, a + Z.of_nat k)%Z <$> seq 0 (Z.to_nat (b - a + 1))
      | _, _ => []
      end
  | _ => []
  end.

Definition spec_expand (text : string) : list Z :=
  mjoin (expand_part <$> str_split "," text).

(** ** The scenarios of the harness description *)

(** Attribute bags as read from the configuration: attribute names with
    their values. *)
Abbreviation bag := (list (string * string)).

(** Scenario A: the templates DB9 (a connector) and CAB1 (a cable with 3
    wires). Scenario B: CAB2 is a cable template as well. *)
Definition scenario_connectors : gmap string bag := {["DB9" := [("pincount", "9")]]}.
Definition scenario_cables : gmap string bag := {["CAB1" := [("wirecount", "3")]]}.
Definition scenario_B_cables : gmap string bag :=
  {["CAB1" := [("wirecount", "3")]; "CAB2" := [("wirecount", "2")]]}.

Definition scenario_A : list (list entry) :=
  [[Str "DB9:P1"; Dct [("CAB1:", "1-3")]; Str "DB9:P2"]].
Definition scenario_B : list (list entry) := [[Str "CAB1:"; Str "CAB2:"]].
Definition scenario_B_lists : list (list entry) := [[Lst ["CAB1:"]; Lst ["CAB2:"]]].
Definition scenario_D : list entry := [Dct [("X1", "1-4")]; Dct [("X2", "1-3")]].

(** ** Notions in which further properties of the build are stated *)


Section BuildNotions.
Context {attribs : Type}.
Variable template_connectors : gmap string attribs.
Variable template_cables : gmap string attribs.

(** Every live instance stems from the template its designator is bound to:
    a connector instance from a connector template, a cable instance from a
    cable template that is no connector template; no designator is
    instantiated twice. *)
Definition instances_from_templates (dt : gmap string string)
    (h : harness (attribs:=attribs)) : Prop :=
  (∀ d a, (d, a) ∈ connectors h →
     ∃ template, dt !! d = Some template ∧ template_connectors !! template = Some a) ∧
  (∀ d a, (d, a) ∈ cables h →
     ∃ template, dt !! d = Some template ∧ template_connectors !! template = None ∧
                 template_cables !! template = Some a) ∧
  NoDup (connectors h).*1 ∧ NoDup (cables h).*1.

(** A connection whose via end is a live cable and whose from and to ends,
    where present, are live connectors. *)
Definition joins_connectors (h : harness (attribs:=attribs)) (c : Connection) : Prop :=
  dict_mem (via_name c) (cables h) = true ∧
  (∀ d, from_name c = Some d → dict_mem d (connectors h) = true) ∧
  (∀ d, to_name c = Some d → dict_mem d (connectors h) = true).

End BuildNotions.

(** * The table of the bill of materials in the HTML output

    Lines 33-53 of [generate_html_output] (wv_html.py). [flatten2d]
    (wv_helper) is not among the files at hand: the model starts from its
    result, the list [bom] of rows of strings, whose first row holds the
    column titles. [str.lower] is taken as a parameter. *)

Definition newline : string := String "010"%char EmptyString.
Definition double_quote : string := String "034"%char EmptyString.

(** [''.join(l)]. *)
Definition str_join (l : list string) : string := foldr String.append "" l.

Section BomTable.
Variable lower : string → string.

(** Lines 36-40. *)
Definition bom_header_html (bom0 : list string) : string :=
  foldl (λ bom_header_html item,
           let th_class := "bom_col_" +:+ lower item in
           bom_header_html +:+ "    <th class=" +:+ double_quote +:+ th_class
             +:+ double_quote +:+ ">" +:+ item +:+ "</th>" +:+ newline)
        ("  <tr>" +:+ newline) bom0
  +:+ "  </tr>" +:+ newline.

(** The body of the loop at lines 46-48; [bom[0][i]] raises on a column
    without title. *)
Definition row_cell (bom0 : list string) (row_html : string) (it : nat * string)
    : result string :=
  match bom0 !! it.1 with
  | None => Err PyIndexError
  | Some title =>
      let td_class := "bom_col_" +:+ lower title in
      Ok (row_html +:+ "    <td class=" +:+ double_quote +:+ td_class
            +:+ double_quote +:+ ">" +:+ it.2 +:+ "</td>" +:+ newline)
  end.

(** Lines 45-49. *)
Definition row_html (bom0 : list string) (row : list string) : result string :=
  html ← foldM (row_cell bom0) ("  <tr>" +:+ newline) (enumerate row);
  Ok (html +:+ "  </tr>" +:+ newline).

(** Lines 36-53: [bom_html] and [bom_html_reversed]. *)
Definition bom_tables (bom : list (list string)) : result (string * string) :=
  match bom with
  | [] => Err PyIndexError                       (* [bom[0]], line 37 *)
  | bom0 :: rows =>
      let header := bom_header_html bom0 in
      bom_contents ← mapM (row_html bom0) rows;
      Ok ("<table>" +:+ newline +:+ header +:+ str_join bom_contents
            +:+ "</table>" +:+ newline,
          "<table>" +:+ newline +:+ str_join (reverse bom_contents) +:+ header
            +:+ "</table>" +:+ newline)
  end.
End BomTable.

(** * Properties *)

(** ** The modelled helpers on the examples of the description *)

Example spec_expand_range : spec_expand "1-3,6" = [1; 2; 3; 6]%Z.
Proof. reflexivity. Qed.

Example transpose_rows : transpose [[1; 2; 3]; [4; 5; 6]] = [[1; 4]; [2; 5]; [3; 6]].
Proof. reflexivity. Qed.

Example transpose_shortest : transpose [[1; 2; 3]; [4]] = [[1; 4]].
Proof. reflexivity. Qed.

(** ** The result monad *)

Lemma bind_Ok {A B : Type} (m : result A) (k : A → result B) (b : B) :
  m ≫= k = Ok b ↔ ∃ a, m = Ok a ∧ k a = Ok b.
Proof.
  destruct m as [a|e]; simpl; split.
  - intros Hk. exists a. auto.
  - intros (a' & Ha & Hk). congruence.
  - discriminate.
  - intros (a' & Ha & _). discriminate.
Qed.

(** Inversion of a successful monadic computation in a hypothesis. *)
Ltac inv_ok :=
  repeat match goal with
  | H : Ok _ = Ok _ |- _ => injection H as H
  | H : Err _ = Ok _ |- _ => discriminate H
  | H : _ ≫= _ = Ok _ |- _ =>
      let a := fresh "a" in
      let Ha := fresh "Ha" in
      apply bind_Ok in H as (a & Ha & H)
  | H : (let '(_, _) := ?p in _) = Ok _ |- _ => destruct p; simpl in H
  | H : (_, _) = (_, _) |- _ => injection H as ??
  end; subst.

Lemma foldM_app {S X : Type} (body : S → X → result S) (s : S) (xs ys : list X) :
  foldM body s (xs ++ ys) = s' ← foldM body s xs; foldM body s' ys.
Proof.
  revert s. induction xs as [|x xs IH]; intros s; simpl; [done|].
  destruct (body s x) as [s1|e]; simpl; [apply IH|done].
Qed.

Lemma foldM_Forall {S X : Type} (body : S → X → result S) (P : X → Prop) s xs s' :
  (∀ s x s', body s x = Ok s' → P x) →
  foldM body s xs = Ok s' → Forall P xs.
Proof.
  intros Hbody. revert s. induction xs as [|x xs IH]; intros s Hf; [constructor|].
  simpl in Hf. apply bind_Ok in Hf as (s1 & Hx & Hf). constructor; eauto.
Qed.

Lemma foldM_Err_at {S X : Type} (body : S → X → result S) s xs x ys s1 e :
  foldM body s xs = Ok s1 → body s1 x = Err e →
  foldM body s (xs ++ x :: ys) = Err e.
Proof. intros Hxs Hx. rewrite foldM_app, Hxs. simpl. by rewrite Hx. Qed.

Lemma mapM_st_length {S X Y : Type} (body : X → S → result (Y * S)) xs s ys s' :
  mapM_st body xs s = Ok (ys, s') → length ys = length xs.
Proof.
  revert s ys s'. induction xs as [|x xs IH]; intros s ys s' Hm; simpl in Hm; inv_ok.
  - done.
  - simpl. f_equal. eauto.
Qed.

Lemma mapM_st_cons_Ok {S X Y : Type} (body : X → S → result (Y * S)) x xs s ys s' :
  mapM_st body (x :: xs) s = Ok (ys, s') →
  ∃ y s1 ys', body x s = Ok (y, s1) ∧ mapM_st body xs s1 = Ok (ys', s') ∧ ys = y :: ys'.
Proof.
  simpl. intros Hm. apply bind_Ok in Hm as ([y s1] & Hb & Hm). simpl in Hm.
  apply bind_Ok in Hm as ([ys' s2] & Hr & Hm). simpl in Hm. inv_ok. eauto 6.
Qed.

Lemma mapM_st_Forall2 {S X Y : Type} (body : X → S → result (Y * S)) xs s ys s' :
  mapM_st body xs s = Ok (ys, s') →
  Forall2 (λ x y, ∃ s1 s2, body x s1 = Ok (y, s2)) xs ys.
Proof.
  revert s ys. induction xs as [|x xs IH]; intros s ys Hm.
  - simpl in Hm. inv_ok. constructor.
  - apply mapM_st_cons_Ok in Hm as (y & s1 & ys' & Hb & Hm & ->).
    constructor; eauto.
Qed.

Lemma mapM_Ok_Forall2 {X Y : Type} (f : X → result Y) xs ys :
  mapM f xs = Ok ys → Forall2 (λ x y, f x = Ok y) xs ys.
Proof.
  revert ys. induction xs as [|x xs IH]; intros ys Hm; simpl in Hm.
  - injection Hm as <-. constructor.
  - apply bind_Ok in Hm as (y & Hy & Hm). apply bind_Ok in Hm as (ys' & Hys & Hm).
    injection Hm as <-. constructor; auto.
Qed.

(** ** Strings *)

Lemma str_split_length sep s : length (str_split sep s) = S (str_count sep s).
Proof.
  induction s as [|c s IH]; simpl; [done|].
  destruct (decide (c = sep)); simpl; [by rewrite IH|].
  destruct (str_split sep s); simpl in *; lia.
Qed.

Lemma str_contains_count sep s : str_contains sep s = true ↔ 0 < str_count sep s.
Proof.
  induction s as [|c s IH]; simpl.
  - split; [discriminate|lia].
  - destruct (decide (c = sep)); [split; [lia|done]|]. rewrite IH. simpl. done.
Qed.

Lemma str_split_two sep inp template designator :
  str_split sep inp = [template; designator] →
  str_contains sep inp = true ∧ str_count sep inp = 1.
Proof.
  intros Hs. pose proof (str_split_length sep inp) as Hl. rewrite Hs in Hl.
  simpl in Hl. split; [apply str_contains_count|]; lia.
Qed.

Lemma prefix_app p r : String.prefix p (p +:+ r) = true.
Proof.
  induction p as [|a p IH]; [by destruct r|].
  change (String a p +:+ r) with (String a (p +:+ r)). simpl.
  destruct (ascii_dec a a); [done|congruence].
Qed.

(** ** The designator resolver *)

Section ResolverFacts.
Variable separator : ascii.
Variable AUTOGENERATED_PREFIX : string.

Abbreviation resolve := (resolve_designator separator AUTOGENERATED_PREFIX).
Abbreviation generated_name := (autogenerated_name AUTOGENERATED_PREFIX).
Abbreviation counter st t := (default 0 (autogenerated_designators st !! t)).

Lemma bind_designator_Ok template designator dt dt' :
  bind_designator template designator dt = Ok dt' →
  dt' !! designator = Some template ∧
  (∀ d t, dt !! d = Some t → dt' !! d = Some t) ∧
  bind_designator template designator dt' = Ok dt'.
Proof.
  unfold bind_designator. destruct (dt !! designator) as [old|] eqn:Hd.
  - destruct (decide (old = template)) as [->|]; [|discriminate].
    intros [= <-]. rewrite Hd. rewrite decide_True by done. auto.
  - intros [= <-]. rewrite lookup_insert_eq. rewrite decide_True by done.
    split_and!; [done| |done].
    intros d t Hdt. rewrite lookup_insert_ne; [done|congruence].
Qed.

Lemma bind_designator_conflict template designator dt old :
  dt !! designator = Some old → old ≠ template →
  bind_designator template designator dt
  = Err (DesignatorConflictError designator old template).
Proof.
  intros Hd Hne. unfold bind_designator. rewrite Hd. by rewrite decide_False.
Qed.

(** What a successful resolution returns and how it moves the state,
    following the three branches of lines 158-185. *)
Lemma resolve_designator_Ok inp st td st' :
  resolve inp st = Ok (td, st') →
  (str_contains separator inp = false ∧ td = (inp, inp) ∧
   autogenerated_designators st' = autogenerated_designators st ∧
   designators_and_templates st' !! inp
     = Some (default inp (designators_and_templates st !! inp)) ∧
   (∀ d t, designators_and_templates st !! d = Some t →
           designators_and_templates st' !! d = Some t)) ∨
  (∃ template designator,
      str_split separator inp = [template; designator] ∧ designator ≠ "" ∧
      td = (template, designator) ∧
      autogenerated_designators st' = autogenerated_designators st ∧
      bind_designator template designator (designators_and_templates st)
        = Ok (designators_and_templates st')) ∨
  (∃ template,
      str_split separator inp = [template; ""] ∧
      td = (template, generated_name template (counter st template + 1)) ∧
      autogenerated_designators st'
        = <[template := counter st template + 1]> (autogenerated_designators st) ∧
      bind_designator template (generated_name template (counter st template + 1))
        (designators_and_templates st) = Ok (designators_and_templates st')).
Proof.
  unfold resolve_designator. destruct st as [dt ag]; simpl.
  destruct (str_contains separator inp) eqn:Hc.
  - destruct (decide (1 < str_count separator inp)); [discriminate|].
    destruct (str_split separator inp) as [|template [|designator [|??]]] eqn:Hs;
      try discriminate.
    destruct (decide (designator = "")) as [->|Hne]; intros Hr; inv_ok.
    + right; right. exists template. simpl. auto.
    + right; left. exists template, designator. simpl. auto.
  - intros Hr. left. destruct (dt !! inp) as [t|] eqn:Hd; inv_ok; simpl.
    + rewrite Hd. auto.
    + rewrite lookup_insert_eq. split_and!; try done.
      intros d t Hdt. rewrite lookup_insert_ne; [done|congruence].
Qed.

Lemma is_autogeneration_request_spec inp :
  is_autogeneration_request separator inp = true ↔
  ∃ template, str_split separator inp = [template; ""].
Proof.
  unfold is_autogeneration_request.
  destruct (str_split separator inp) as [|t [|[|??] [|??]]];
    split; try discriminate; try (intros [? [=]]); eauto.
Qed.

(** Bindings are only ever added. *)
Lemma resolve_designator_preserves inp st td st' d t :
  resolve inp st = Ok (td, st') →
  designators_and_templates st !! d = Some t →
  designators_and_templates st' !! d = Some t.
Proof.
  intros Hr Hd.
  apply resolve_designator_Ok in Hr
    as [(_&_&_&_&Hp)|[(?&?&_&_&_&_&Hb)|(?&_&_&_&Hb)]]; [by apply Hp|..];
    apply bind_designator_Ok in Hb as (_&Hp&_); by apply Hp.
Qed.

Lemma resolve_all_preserves toks st rs st' d t :
  resolve_all separator AUTOGENERATED_PREFIX toks st = Ok (rs, st') →
  designators_and_templates st !! d = Some t →
  designators_and_templates st' !! d = Some t.
Proof.
  unfold resolve_all. revert st rs st'.
  induction toks as [|tok toks IH]; intros st rs st' Hr Hd.
  - simpl in Hr. by inv_ok.
  - apply mapM_st_cons_Ok in Hr as (td & st1 & rs' & Ha & Hr & ->).
    eapply IH; [done|]. by eapply resolve_designator_preserves.
Qed.

(** A token that names a bound designator under another template. *)
Lemma resolve_designator_conflict inp st template designator old :
  str_split separator inp = [template; designator] → designator ≠ "" →
  designators_and_templates st !! designator = Some old → old ≠ template →
  resolve inp st = Err (DesignatorConflictError designator old template).
Proof.
  intros Hs Hne Hd Hold. unfold resolve_designator.
  destruct (str_split_two _ _ _ _ Hs) as [-> Hc]. rewrite Hc, Hs.
  rewrite decide_False by lia. rewrite decide_False by done.
  by rewrite (bind_designator_conflict _ _ _ old).
Qed.

(** C4, as amended. A token that is not an auto-generation request (it
    has no separator, or a designator after it) resolves idempotently: when
    its resolution succeeds, resolving it again returns the same
    (template, designator) pair and leaves the resolver state, counters
    included, as the first resolution left it. *)
Theorem resolve_designator_idempotent inp st td st' :
  is_autogeneration_request separator inp = false →
  resolve inp st = Ok (td, st') →
  resolve inp st' = Ok (td, st').
Proof.
  intros Hna Hr.
  apply resolve_designator_Ok in Hr
    as [(Hc&->&Hag&Hd&_)|[(template&designator&Hs&Hne&->&Hag&Hb)|(template&Hs&_)]].
  - unfold resolve_designator. rewrite Hc, Hd. by destruct st'.
  - unfold resolve_designator. destruct (str_split_two _ _ _ _ Hs) as [-> Hc].
    rewrite Hc, Hs. rewrite decide_False by lia. rewrite decide_False by done.
    apply bind_designator_Ok in Hb as (_&_&->). simpl. by destruct st'.
  - assert (is_autogeneration_request separator inp = true) as Ht
      by (apply is_autogeneration_request_spec; eauto).
    congruence.
Qed.

(** One resolution, seen from the counter of [template]: either it is the
    next generation for [template], or it leaves that counter alone. *)
Lemma resolve_designator_counter inp st td st' template :
  resolve inp st = Ok (td, st') →
  (is_autogeneration_request separator inp = true ∧ td.1 = template ∧
   td.2 = generated_name template (counter st template + 1) ∧
   counter st' template = counter st template + 1) ∨
  (¬ (is_autogeneration_request separator inp = true ∧ td.1 = template) ∧
   counter st' template = counter st template).
Proof.
  intros Hr.
  apply resolve_designator_Ok in Hr
    as [(Hc&->&Hag&_)|[(t&d&Hs&Hne&->&Hag&_)|(t&Hs&->&Hag&_)]].
  - right. rewrite Hag. split; [|done]. intros [Ha _].
    apply is_autogeneration_request_spec in Ha as [t Hs].
    apply str_split_two in Hs as [Hs _]. congruence.
  - right. rewrite Hag. split; [|done]. intros [Ha _].
    apply is_autogeneration_request_spec in Ha as [t' Hs']. congruence.
  - assert (is_autogeneration_request separator inp = true) as Ha
      by (apply is_autogeneration_request_spec; eauto).
    rewrite Hag. simpl. destruct (decide (t = template)) as [->|Hne].
    + left. by rewrite lookup_insert_eq.
    + right. rewrite lookup_insert_ne by done. split; [|done]. by intros [_ ?].
Qed.

(** The designators generated for one template along a sequence of
    resolutions carry consecutive numbers, from the counter's value on. *)
Lemma autogenerated_for_consecutive toks st rs st' template :
  resolve_all separator AUTOGENERATED_PREFIX toks st = Ok (rs, st') →
  let generated := autogenerated_for separator template (zip toks rs) in
  generated = generated_name template <$> seq (counter st template + 1) (length generated) ∧
  counter st' template = counter st template + length generated.
Proof.
  unfold resolve_all, autogenerated_for. revert st rs st'.
  induction toks as [|tok toks IH]; intros st rs st' Hr.
  - simpl in Hr. inv_ok. simpl. split; [done|lia].
  - apply mapM_st_cons_Ok in Hr as (td & st1 & rs' & Ha & Hr & ->).
    specialize (IH _ _ _ Hr) as [IH1 IH2]. cbn zeta in IH1, IH2.
    cbn zeta. cbn [zip zip_with]. rewrite filter_cons. cbn [fst snd].
    destruct (resolve_designator_counter _ _ _ _ template Ha)
      as [(Hq&Ht&Hd&Hc)|(Hq&Hc)]; rewrite Hc in IH1, IH2.
    + rewrite decide_True by done. rewrite fmap_cons. cbn [length seq fst snd].
      rewrite fmap_cons, Hd. split; [|lia].
      f_equal. rewrite IH1 at 1. do 2 f_equal. lia.
    + rewrite decide_False by done. done.
Qed.

#[local] Instance generated_name_inj template : Inj (=) (=) (generated_name template).
Proof.
  intros n m Hnm. unfold autogenerated_name in Hnm.
  do 3 apply (inj (String.app _)) in Hnm. by apply (inj pretty) in Hnm.
Qed.

(** C6. Along any sequence of resolutions that does not fail, a designator
    bound to a template stays bound to it, and afterwards a token with one
    separator that names this designator under another template fails with
    the conflict error, which carries the designator and both templates. *)
Theorem binding_never_changes toks st rs st' :
  resolve_all separator AUTOGENERATED_PREFIX toks st = Ok (rs, st') →
  (∀ d t, designators_and_templates st !! d = Some t →
          designators_and_templates st' !! d = Some t) ∧
  (∀ d t inp template,
      designators_and_templates st !! d = Some t →
      str_split separator inp = [template; d] → d ≠ "" → t ≠ template →
      resolve inp st' = Err (DesignatorConflictError d t template)).
Proof.
  intros Hr. split.
  - intros d t Hd. by eapply resolve_all_preserves.
  - intros d t inp template Hd Hs Hne Ht.
    apply (resolve_all_preserves _ _ _ _ d t Hr) in Hd.
    by apply resolve_designator_conflict.
Qed.

(** C7, as amended. Within one build, the designators generated for a
    template are the reserved prefix, the template name, an underscore and
    the numbers 1, 2, 3, ... in generation order, hence pairwise distinct;
    and none of them equals a user-chosen designator that does not begin
    with the reserved prefix. *)
Theorem autogenerated_designators_numbered toks rs st' template :
  resolve_all separator AUTOGENERATED_PREFIX toks empty_resolver = Ok (rs, st') →
  let generated := autogenerated_for separator template (zip toks rs) in
  generated = generated_name template <$> seq 1 (length generated) ∧
  NoDup generated ∧
  (∀ d, d ∈ user_chosen separator (zip toks rs) →
        String.prefix AUTOGENERATED_PREFIX d = false → d ∉ generated).
Proof.
  intros Hr generated.
  destruct (autogenerated_for_consecutive _ _ _ _ template Hr) as [Hg _].
  fold generated in Hg. simpl in Hg. rewrite lookup_empty in Hg. simpl in Hg.
  split_and!; [done| |].
  - rewrite Hg. apply (NoDup_fmap_2 _), NoDup_seq.
  - intros d _ Hp Hd. rewrite Hg in Hd.
    apply list_elem_of_fmap in Hd as (n & -> & _).
    unfold autogenerated_name in Hp. rewrite prefix_app in Hp. discriminate.
Qed.

End ResolverFacts.

(** C4, witness: the token X1, first seen in the empty state. *)
Lemma resolve_designator_idempotent_witness :
  let st' := Resolver {["X1" := "X1"]} ∅ in
  is_autogeneration_request ":" "X1" = false ∧
  resolve_designator ":" example_prefix "X1" empty_resolver = Ok (("X1", "X1"), st') ∧
  resolve_designator ":" example_prefix "X1" st' = Ok (("X1", "X1"), st').
Proof.
  split; [reflexivity|]. split; [vm_compute; reflexivity|].
  apply (resolve_designator_idempotent ":" example_prefix "X1" empty_resolver);
    vm_compute; reflexivity.
Defined.

(** C4, counterexample: the token CAB1: resolved twice in succession yields
    two different designators and moves the counter of CAB1 from 1 to 2. *)
Lemma resolve_designator_autogenerates_twice :
  let st1 := Resolver {["AUTOGENERATED_CAB1_1" := "CAB1"]} {["CAB1" := 1]} in
  let st2 := Resolver {["AUTOGENERATED_CAB1_1" := "CAB1"; "AUTOGENERATED_CAB1_2" := "CAB1"]}
                      {["CAB1" := 2]} in
  resolve_designator ":" example_prefix "CAB1:" empty_resolver
    = Ok (("CAB1", "AUTOGENERATED_CAB1_1"), st1) ∧
  resolve_designator ":" example_prefix "CAB1:" st1
    = Ok (("CAB1", "AUTOGENERATED_CAB1_2"), st2).
Proof. split; vm_compute; reflexivity. Qed.

(** C6, witness: P1 is bound to DB9, two more tokens are resolved, then the
    token CAB1:P1 is refused. *)
Lemma binding_never_changes_witness :
  let st := Resolver {["P1" := "DB9"]} ∅ in
  let st' := Resolver {["P1" := "DB9"; "X1" := "X1"]} ∅ in
  resolve_all ":" example_prefix ["X1"; "DB9:P1"] st
    = Ok ([("X1", "X1"); ("DB9", "P1")], st') ∧
  designators_and_templates st' !! "P1" = Some "DB9" ∧
  resolve_designator ":" example_prefix "CAB1:P1" st'
    = Err (DesignatorConflictError "P1" "DB9" "CAB1").
Proof.
  assert (resolve_all ":" example_prefix ["X1"; "DB9:P1"] (Resolver {["P1" := "DB9"]} ∅)
          = Ok ([("X1", "X1"); ("DB9", "P1")], Resolver {["P1" := "DB9"; "X1" := "X1"]} ∅))
    as Hr by (vm_compute; reflexivity).
  split; [exact Hr|].
  destruct (binding_never_changes ":" example_prefix _ _ _ _ Hr) as [Hkeep Hconflict].
  split.
  - apply Hkeep. vm_compute. reflexivity.
  - apply Hconflict; [vm_compute; reflexivity|reflexivity|discriminate|discriminate].
Defined.

(** C7, witness: two generations for CAB1 around a user-chosen P1. *)
Lemma autogenerated_designators_numbered_witness :
  let toks := ["CAB1:"; "DB9:P1"; "CAB1:"] in
  let rs := [("CAB1", "AUTOGENERATED_CAB1_1"); ("DB9", "P1"); ("CAB1", "AUTOGENERATED_CAB1_2")] in
  let generated := autogenerated_for ":" "CAB1" (zip toks rs) in
  generated = autogenerated_name example_prefix "CAB1" <$> seq 1 (length generated) ∧
  NoDup generated ∧
  (∀ d, d ∈ user_chosen ":" (zip toks rs) →
        String.prefix example_prefix d = false → d ∉ generated).
Proof.
  apply (autogenerated_designators_numbered ":" example_prefix
           ["CAB1:"; "DB9:P1"; "CAB1:"] _
           (Resolver {["AUTOGENERATED_CAB1_1" := "CAB1"; "P1" := "DB9";
                       "AUTOGENERATED_CAB1_2" := "CAB1"]} {["CAB1" := 2]}) "CAB1").
  vm_compute. reflexivity.
Defined.

(** C7, counterexample: the user names a designator after the reserved
    pattern; the designator generated next for the same template is that very
    name, and the resolver accepts it. *)
Lemma autogenerated_designator_collides :
  let toks := ["T:AUTOGENERATED_T_1"; "T:"] in
  let rs := [("T", "AUTOGENERATED_T_1"); ("T", "AUTOGENERATED_T_1")] in
  resolve_all ":" example_prefix toks empty_resolver
    = Ok (rs, Resolver {["AUTOGENERATED_T_1" := "T"]} {["T" := 1]}) ∧
  user_chosen ":" (zip toks rs) = ["AUTOGENERATED_T_1"] ∧
  autogenerated_for ":" "T" (zip toks rs) = ["AUTOGENERATED_T_1"].
Proof. split_and!; vm_compute; reflexivity. Qed.

(** ** The number of parallel connections *)

Section CountFacts.
Variable expand : string → list Z.

Abbreviation candidates cs := (omap (candidate expand) cs).

(** On input entries the loop of lines 210-217 collects the candidates. *)
Lemma foldM_count_entry acc cs :
  forallb input_entry cs = true →
  foldM (count_entry expand) acc cs = Ok (acc ++ candidates cs).
Proof.
  revert acc. induction cs as [|e cs IH]; intros acc Hin; simpl.
  - by rewrite app_nil_r.
  - simpl in Hin. apply andb_prop in Hin as [He Hin].
    destruct e as [s|l|[|[k v] [|??]]|l]; try discriminate He; simpl;
      rewrite IH by done; try done; by rewrite <- app_assoc.
Qed.

Lemma connectioncounts_candidates cs :
  forallb input_entry cs = true →
  connectioncounts expand cs = Ok (candidates cs).
Proof. intros Hin. unfold connectioncounts. by rewrite foldM_count_entry. Qed.

(** [len(set(l)) > 1] says that two elements of [l] differ. *)
Lemma size_list_to_set_gt1 (l : list nat) :
  1 < size (list_to_set l : gset nat) ↔ ∃ a b, a ∈ l ∧ b ∈ l ∧ a ≠ b.
Proof.
  split.
  - intros Hs. destruct l as [|a l]; [rewrite list_to_set_nil, size_empty in Hs; lia|].
    destruct (decide (Forall (λ c, c = a) l)) as [Hall|Hnot].
    + exfalso. assert (list_to_set (a :: l) ⊆ ({[a]} : gset nat)) as Hsub.
      { intros x Hx. apply elem_of_list_to_set, elem_of_cons in Hx as [->|Hx];
          [set_solver|].
        rewrite Forall_forall in Hall. rewrite (Hall x Hx). set_solver. }
      apply subseteq_size in Hsub. rewrite size_singleton in Hsub. lia.
    + apply not_Forall_Exists in Hnot; [|apply _].
      apply Exists_exists in Hnot as (b & Hb & Hne).
      exists a, b. split_and!; [left|by right|congruence].
  - intros (a & b & Ha & Hb & Hne).
    assert (({[a]} ∪ {[b]} : gset nat) ⊆ list_to_set l) as Hsub by set_solver.
    apply subseteq_size in Hsub.
    rewrite size_union, !size_singleton in Hsub by set_solver. lia.
Qed.

Lemma all_zero_iff (l : list nat) : ¬ Exists (λ n, n ≠ 0) l ↔ Forall (λ c, c = 0) l.
Proof.
  rewrite <- Forall_Exists_neg. apply Forall_iff. intros n. simpl. lia.
Qed.

(** The three outcomes of lines 219-228. *)
Lemma agree_missing counts :
  agree counts = Err MissingConnectionCountError ↔ Forall (λ c, c = 0) counts.
Proof.
  unfold agree. rewrite <- all_zero_iff.
  destruct (decide (Exists (λ n, n ≠ 0) counts)) as [Hex|Hnex]; [|done].
  destruct (decide _); [done|]. destruct counts; done.
Qed.

Lemma agree_mismatch counts :
  agree counts = Err ConnectionCountMismatchError ↔
  ∃ a b, a ∈ counts ∧ b ∈ counts ∧ a ≠ b.
Proof.
  rewrite <- size_list_to_set_gt1. unfold agree.
  destruct (decide (Exists (λ n, n ≠ 0) counts)) as [Hex|Hnex].
  - destruct (decide _); [done|]. destruct counts; done.
  - split; [done|]. intros Hs. exfalso.
    apply size_list_to_set_gt1 in Hs as (a & b & Ha & Hb & Hne).
    apply all_zero_iff in Hnex. rewrite Forall_forall in Hnex.
    rewrite (Hnex a Ha), (Hnex b Hb) in Hne. done.
Qed.

Lemma agree_Ok counts n :
  agree counts = Ok n ↔ n ≠ 0 ∧ counts ≠ [] ∧ Forall (λ c, c = n) counts.
Proof.
  unfold agree. destruct (decide (Exists (λ n, n ≠ 0) counts)) as [Hex|Hnex].
  - destruct (decide (1 < size (list_to_set counts : gset nat))) as [Hs|Hs].
    + split; [done|]. intros (_ & _ & Hall). exfalso.
      apply size_list_to_set_gt1 in Hs as (a & b & Ha & Hb & Hne).
      rewrite Forall_forall in Hall. rewrite (Hall a Ha), (Hall b Hb) in Hne. done.
    + rewrite size_list_to_set_gt1 in Hs.
      destruct counts as [|c counts]; [by apply Exists_nil in Hex|].
      assert (Forall (λ x, x = c) (c :: counts)) as Hall.
      { apply Forall_forall. intros x Hx. destruct (decide (x = c)); [done|].
        destruct Hs. exists x, c. split_and!; [done|left|done]. }
      split.
      * intros [= <-]. split_and!; [|done|done].
        apply Exists_exists in Hex as (x & Hx & Hx0).
        rewrite Forall_forall in Hall. by rewrite <- (Hall x Hx).
      * intros (_ & _ & Hn). by apply Forall_cons in Hn as [-> _].
  - split; [done|]. intros (Hn & Hne & Hall). destruct Hnex.
    destruct counts as [|c counts]; [done|].
    apply Forall_cons in Hall as [-> _]. by left.
Qed.

End CountFacts.

(** ** Normalization of a connection set *)

Section NormalizeFacts.
Variable separator : ascii.
Variable AUTOGENERATED_PREFIX : string.
Variable expand : string → list Z.
Context {attribs : Type} `{EqDecision attribs}.

Abbreviation resolve := (resolve_designator separator AUTOGENERATED_PREFIX).
Abbreviation resolve_tokens := (resolve_all separator AUTOGENERATED_PREFIX).
Abbreviation resolve_one := (resolve_entry separator AUTOGENERATED_PREFIX).
Abbreviation normalize_set := (normalize separator AUTOGENERATED_PREFIX expand (attribs:=attribs)).

(** Every entry that reveals a count has it collected by lines 210-217. *)
Lemma foldM_count_entry_elem acc cs counts :
  foldM (count_entry expand) acc cs = Ok counts →
  (∀ c, c ∈ acc → c ∈ counts) ∧
  ∀ e, e ∈ cs →
    match e with
    | Lst l => length l ∈ counts
    | Recs l => length l ∈ counts
    | Dct ((_, v) :: _) => length (expand v) ∈ counts
    | _ => True
    end.
Proof.
  revert acc. induction cs as [|e cs IH]; intros acc Hf; simpl in Hf.
  - inv_ok. split; [done|]. intros e He. by apply elem_of_nil in He.
  - apply bind_Ok in Hf as (acc' & He & Hf). destruct (IH _ Hf) as [IHa IHe].
    assert (∀ c, c ∈ acc → c ∈ acc') as Hacc.
    { intros c Hc. destruct e as [?|?|[|[??]?]|?]; simpl in He; inv_ok;
        try done; apply elem_of_app; by left. }
    split; [by auto|]. intros e' He'.
    apply elem_of_cons in He' as [->|He']; [|by apply IHe].
    destruct e as [?|?|[|[??]?]|?]; simpl in He; inv_ok; try done;
      apply IHa, elem_of_app; right; by left.
Qed.

(** What lines 231-258 make of one entry. *)
Lemma normalized_entry n e st1 e' st2 r :
  resolve_one (expand_string n e) st1 = Ok (e', st2) →
  expand_pins expand e' = Ok r →
  match e with
  | Str s => ∃ rs, resolve_tokens (replicate n s) st1 = Ok (rs, st2) ∧
                   r = (λ td, (td.2, 1%Z)) <$> rs
  | Lst l => ∃ rs, resolve_tokens l st1 = Ok (rs, st2) ∧
                   r = (λ td, (td.2, 1%Z)) <$> rs
  | Dct kvs => ∃ key v rest td, kvs = (key, v) :: rest ∧
                   resolve key st1 = Ok (td, st2) ∧
                   r = (λ pin, (td.2, pin)) <$> expand v
  | Recs l => l = [] ∧ r = []
  end.
Proof.
  intros Hr Hp. destruct e as [s|l|[|[key v] rest]|[|? l]]; simpl in Hr;
    try discriminate Hr.
  - apply bind_Ok in Hr as ([rs st'] & Hrs & Hr). simpl in Hr. inv_ok.
    simpl in Hp. inv_ok. exists rs. split; [done|]. by rewrite <- list_fmap_compose.
  - apply bind_Ok in Hr as ([rs st'] & Hrs & Hr). simpl in Hr. inv_ok.
    simpl in Hp. inv_ok. exists rs. split; [done|]. by rewrite <- list_fmap_compose.
  - apply bind_Ok in Hr as ([td st'] & Hrs & Hr). simpl in Hr. inv_ok.
    simpl in Hp. inv_ok. by exists key, v, rest, td.
  - inv_ok. simpl in Hp. by inv_ok.
Qed.

(** The steps of [normalize], once it has succeeded. *)
Lemma normalize_Ok b i rows b' :
  normalize_set b i = Ok (rows, b') →
  ∃ cs n resolved,
    yaml_connections b !! i = Some cs ∧
    get_connectioncount expand cs = Ok n ∧
    mapM_st resolve_one (expand_string n <$> cs) (resolver_state b)
      = Ok (resolved, resolver_state b') ∧
    mapM (expand_pins expand) resolved = Ok rows ∧
    yaml_connections b' = <[i := Recs <$> rows]> (yaml_connections b) ∧
    harness_state b' = harness_state b.
Proof.
  unfold normalize. destruct (yaml_connections b !! i) as [cs|] eqn:Hcs; [|done].
  pose proof (lookup_lt_Some _ _ _ Hcs) as Hi.
  intros Hn. apply bind_Ok in Hn as (n & Hcount & Hn).
  rewrite list_lookup_insert_eq in Hn by done. simpl in Hn.
  apply bind_Ok in Hn as ([resolved r] & Hres & Hn). simpl in Hn.
  rewrite list_lookup_insert_eq in Hn by (by rewrite length_insert). simpl in Hn.
  apply bind_Ok in Hn as (rows' & Hrows & Hn). inv_ok.
  exists cs, n, resolved. simpl. by rewrite !list_insert_insert_eq.
Qed.

Lemma normalize_length b i cs rows b' :
  yaml_connections b !! i = Some cs →
  normalize_set b i = Ok (rows, b') → length rows = length cs.
Proof.
  intros Hcs Hn.
  apply normalize_Ok in Hn as (cs' & n & resolved & Hcs' & _ & Hres & Hrows & _).
  rewrite Hcs in Hcs'. injection Hcs' as <-.
  apply mapM_st_length in Hres. apply mapM_Ok_Forall2, Forall2_length in Hrows.
  rewrite length_fmap in Hres. congruence.
Qed.

(** C5. A connection set with an agreed count n is normalized, in place,
    into one row per entry, in the order of the entries; each row holds
    exactly n (designator, pin) records; the records of a string or list
    entry carry the resolved designators of its tokens with pin 1, those of
    a mapping entry the resolved designator of its key with the expanded
    pin numbers in order. *)
Theorem normalize_rows b i cs rows b' :
  yaml_connections b !! i = Some cs →
  normalize_set b i = Ok (rows, b') →
  ∃ n, get_connectioncount expand cs = Ok n ∧
       yaml_connections b' !! i = Some (Recs <$> rows) ∧
       length rows = length cs ∧
       ∀ k e, cs !! k = Some e →
         ∃ r, rows !! k = Some r ∧ length r = n ∧
           match e with
           | Str s => ∃ st1 st2 rs,
               resolve_tokens (replicate n s) st1 = Ok (rs, st2) ∧
               r = (λ td, (td.2, 1%Z)) <$> rs
           | Lst l => ∃ st1 st2 rs,
               resolve_tokens l st1 = Ok (rs, st2) ∧
               r = (λ td, (td.2, 1%Z)) <$> rs
           | Dct kvs => ∃ key v rest st1 st2 td,
               kvs = (key, v) :: rest ∧
               resolve key st1 = Ok (td, st2) ∧
               r = (λ pin, (td.2, pin)) <$> expand v
           | Recs _ => False
           end.
Proof.
  intros Hcs Hn.
  apply normalize_Ok in Hn as (cs' & n & resolved & Hcs' & Hcount & Hres & Hrows & Hst & _).
  rewrite Hcs in Hcs'. injection Hcs' as <-.
  pose proof (lookup_lt_Some _ _ _ Hcs) as Hi.
  apply mapM_st_Forall2 in Hres. apply mapM_Ok_Forall2 in Hrows.
  exists n. split; [done|]. split; [by rewrite Hst, list_lookup_insert_eq|].
  split.
  { apply Forall2_length in Hres, Hrows. rewrite length_fmap in Hres. congruence. }
  unfold get_connectioncount in Hcount.
  apply bind_Ok in Hcount as (counts & Hcounts & Hagree).
  apply agree_Ok in Hagree as (Hn0 & _ & Hall). rewrite Forall_forall in Hall.
  apply foldM_count_entry_elem in Hcounts as [_ Hcounts].
  intros k e He.
  assert ((expand_string n <$> cs) !! k = Some (expand_string n e)) as He1
    by (by rewrite list_lookup_fmap, He).
  destruct (Forall2_lookup_l _ _ _ _ _ Hres He1) as (e' & He' & st1 & st2 & Hre).
  destruct (Forall2_lookup_l _ _ _ _ _ Hrows He') as (r & Hr & Hpins).
  exists r. split; [done|].
  pose proof (normalized_entry _ _ _ _ _ _ Hre Hpins) as Hne.
  specialize (Hcounts e (list_elem_of_lookup_2 _ _ _ He)).
  destruct e as [s|l|kvs|l].
  - destruct Hne as (rs & Hrs & ->). split; [|by eauto].
    rewrite length_fmap. apply mapM_st_length in Hrs.
    by rewrite Hrs, length_replicate.
  - destruct Hne as (rs & Hrs & ->). split; [|by eauto].
    rewrite length_fmap. apply mapM_st_length in Hrs.
    rewrite Hrs. by apply Hall.
  - destruct Hne as (key & v & rest & td & -> & Hk & ->). split; [|by eauto 10].
    rewrite length_fmap. by apply Hall.
  - destruct Hne as [-> ->]. apply Hall in Hcounts. simpl in Hcounts. congruence.
Qed.

End NormalizeFacts.

(** ** The instantiate pass *)

Section GenerateFacts.
Context {attribs : Type} `{EqDecision attribs}.
Variable template_connectors : gmap string attribs.
Variable template_cables : gmap string attribs.
Variable dt : gmap string string.

Abbreviation gen_item := (generate_item template_connectors template_cables dt).
Abbreviation gen_row := (generate_row template_connectors template_cables dt).
Abbreviation is_settled := (settled template_connectors dt).

Lemma dict_mem_set {V : Type} (k k' : string) (v : V) d :
  dict_mem k (dict_set k' v d) = bool_decide (k = k') || dict_mem k d.
Proof.
  assert (k ∈ (dict_set k' v d).*1 ↔ k = k' ∨ k ∈ d.*1) as Hkeys.
  { induction d as [|[k0 v0] d IH]; simpl.
    - set_solver.
    - destruct (decide (k0 = k')) as [->|Hne]; simpl; set_solver. }
  unfold dict_mem. apply eq_true_iff_eq.
  by rewrite orb_true_iff, !bool_decide_eq_true.
Qed.

Lemma settled_kind_of h d t : is_settled h d t → kind_of h d = Some t.
Proof.
  unfold settled, kind_of. destruct t; [by intros ->|].
  by intros (-> & -> & _).
Qed.

Lemma check_type_Ok d template actual expected e :
  check_type d template actual expected = Ok e →
  e = actual ∧ (expected = None ∨ expected = Some e).
Proof.
  unfold check_type. destruct (decide _) as [|Heq]; [done|].
  intros [= <-]. apply dec_stable in Heq.
  destruct expected; simpl in *; subst; auto.
Qed.

(** One item, successfully generated: the cursor is set to the type of the
    item's instance, which is settled from then on; what was settled
    before stays so. *)
Lemma generate_item_Ok h expected item h' expected' :
  gen_item (h, expected) item = Ok (h', expected') →
  ∃ e, expected' = Some e ∧ (expected = None ∨ expected = Some e) ∧
       is_settled h' item.1 e ∧
       (∀ d t, is_settled h d t → is_settled h' d t).
Proof.
  unfold generate_item. destruct item as [d p]; simpl.
  destruct (dt !! d) as [template|] eqn:Hd; [|done].
  destruct (dict_mem d (connectors h)) eqn:Hconn.
  { intros Hg. inv_ok. apply check_type_Ok in Ha as [-> Hexp].
    exists connector. by split_and!. }
  destruct (template_connectors !! template) as [a|] eqn:Htc.
  { intros Hg. inv_ok. apply check_type_Ok in Ha as [-> Hexp].
    exists connector. split_and!; [done|done|..].
    - simpl. rewrite dict_mem_set. by rewrite bool_decide_eq_true_2.
    - intros d' [|]; simpl.
      + rewrite dict_mem_set. intros ->. by rewrite orb_true_r.
      + intros (Hc & Hcab & t' & Hd' & Ht'). split_and!; [|done|by eauto].
        rewrite dict_mem_set, Hc. rewrite bool_decide_eq_false_2; [done|].
        intros ->. congruence. }
  destruct (dict_mem d (cables h)) eqn:Hcab.
  { intros Hg. inv_ok. apply check_type_Ok in Ha as [-> Hexp].
    exists cable. split_and!; [done|done| |done]. simpl. eauto. }
  destruct (template_cables !! template) as [a|] eqn:Htcab; [|done].
  intros Hg. inv_ok. apply check_type_Ok in Ha as [-> Hexp].
  exists cable. split_and!; [done|done|..].
  - simpl. split_and!; [done| |by eauto].
    rewrite dict_mem_set. by rewrite bool_decide_eq_true_2.
  - intros d' [|]; simpl; [done|].
    intros (Hc & Hcab' & Ht). split_and!; [done| |done].
    rewrite dict_mem_set, Hcab'. by rewrite orb_true_r.
Qed.

Lemma generate_items_Ok r h expected h' expected' :
  foldM gen_item (h, expected) r = Ok (h', expected') →
  (∀ d t, is_settled h d t → is_settled h' d t) ∧
  ((r = [] ∧ expected' = expected) ∨
   ∃ e, expected' = Some e ∧ (expected = None ∨ expected = Some e) ∧
        ∀ item, item ∈ r → is_settled h' item.1 e).
Proof.
  revert h expected. induction r as [|item r IH]; intros h expected Hf; simpl in Hf.
  - inv_ok. auto.
  - apply bind_Ok in Hf as ([h1 e1] & Hitem & Hf).
    apply generate_item_Ok in Hitem as (e & -> & Hexp & Hs & Hkeep).
    apply IH in Hf as (Hkeep' & Hr). split; [by auto|]. right.
    destruct Hr as [[-> ->]|(e' & -> & He' & Hall)].
    + exists e. split_and!; [done|done|].
      intros it Hit. apply list_elem_of_singleton in Hit as ->. by apply Hkeep'.
    + destruct He' as [|[= <-]]; [done|]. exists e. split_and!; [done|done|].
      intros it [->|Hit]%elem_of_cons; [by apply Hkeep'|by apply Hall].
Qed.

Lemma generate_row_Ok r h expected h' expected' :
  gen_row (h, expected) r = Ok (h', expected') →
  (∀ d t, is_settled h d t → is_settled h' d t) ∧
  ∃ e, expected' = Some (flip e) ∧ (expected = None ∨ expected = Some e) ∧
       ∀ item, item ∈ r → is_settled h' item.1 e.
Proof.
  unfold generate_row. intros Hg. apply bind_Ok in Hg as ([h1 e1] & Hitems & Hg).
  apply bind_Ok in Hg as (e2 & Halt & Hg). simpl in *. inv_ok.
  apply generate_items_Ok in Hitems as (Hkeep & Hr). split; [done|].
  destruct Hr as [[-> ->]|(e & -> & He & Hall)].
  - destruct expected as [e|]; [|done]. exists e. split_and!.
    + by destruct e; simpl in Halt; inv_ok.
    + by right.
    + intros it Hit. by apply elem_of_nil in Hit.
  - exists e. split_and!; [|done|done]. by destruct e; simpl in Halt; inv_ok.
Qed.

Lemma generate_rows_Ok rows h expected h' expected' :
  foldM gen_row (h, expected) rows = Ok (h', expected') →
  (∀ d t, is_settled h d t → is_settled h' d t) ∧
  ∃ t0, (expected = None ∨ expected = Some t0) ∧
        ∀ i r item, rows !! i = Some r → item ∈ r →
                    is_settled h' item.1 (nth_type t0 i).
Proof.
  revert h expected. induction rows as [|r rows IH]; intros h expected Hf; simpl in Hf.
  - injection Hf as <- <-. split; [done|]. exists (default connector expected).
    split; [destruct expected; auto|]. intros i r item Hi. by rewrite lookup_nil in Hi.
  - apply bind_Ok in Hf as ([h1 e1] & Hrow & Hf).
    apply generate_row_Ok in Hrow as (Hkeep & e & -> & Hexp & Hall).
    apply IH in Hf as (Hkeep' & t1 & Ht1 & Hrest). split; [by auto|].
    destruct Ht1 as [|[= <-]]; [done|]. exists e. split; [done|].
    intros [|i] r' item Hi Hit; simpl in Hi.
    + injection Hi as <-. simpl. by apply Hkeep', Hall.
    + simpl. by eapply Hrest.
Qed.

(** The branches of lines 274-294 and [component_type] agree on a
    mismatch of types. *)
Lemma generate_item_mismatch h e item template actual :
  component_type template_connectors template_cables dt h item.1 = Ok (template, actual) →
  actual ≠ e →
  gen_item (h, Some e) item
  = Err (TypeAlternationViolationError e item.1 template actual).
Proof.
  unfold component_type, generate_item. destruct item as [d p]; simpl.
  destruct (dt !! d) as [t|]; [|done].
  destruct (dict_mem d (connectors h)).
  { intros [= <- <-] Hne. unfold check_type. simpl. by rewrite decide_True. }
  destruct (template_connectors !! t) as [a|].
  { rewrite decide_True by eauto. intros [= <- <-] Hne.
    unfold check_type. simpl. by rewrite decide_True. }
  rewrite decide_False by (by intros [??]).
  destruct (dict_mem d (cables h)).
  { intros [= <- <-] Hne. unfold check_type. simpl. by rewrite decide_True. }
  destruct (template_cables !! t) as [a|].
  { rewrite decide_True by eauto. intros [= <- <-] Hne.
    unfold check_type. simpl. by rewrite decide_True. }
  rewrite decide_False by (by intros [??]). done.
Qed.

End GenerateFacts.

(** ** The connect pass *)

Section ConnectFacts.
Context {attribs : Type}.

Lemma enumerate_lookup {A : Type} (l : list A) i :
  enumerate l !! i = (λ x, (i, x)) <$> l !! i.
Proof.
  unfold enumerate. rewrite lookup_zip_with.
  destruct (l !! i) as [x|] eqn:Hl.
  - rewrite lookup_seq_lt by (by eapply lookup_lt_Some). done.
  - by destruct (seq 0 (length l) !! i).
Qed.

Lemma elem_of_enumerate {A : Type} (l : list A) i x :
  (i, x) ∈ enumerate l ↔ l !! i = Some x.
Proof.
  rewrite list_elem_of_lookup. split.
  - intros [k Hk]. rewrite enumerate_lookup in Hk.
    destruct (l !! k) eqn:Hl; simpl in Hk; [|done]. by injection Hk as <- <-.
  - intros Hl. exists i. by rewrite enumerate_lookup, Hl.
Qed.

Lemma NoDup_enumerate {A : Type} (l : list A) : NoDup (enumerate l).
Proof.
  apply (NoDup_fmap_1 fst). unfold enumerate.
  rewrite fst_zip by (by rewrite length_seq). apply NoDup_seq.
Qed.

Lemma bind_enumerate {A B : Type} (f : A → list B) (l : list A) :
  enumerate l ≫= (λ it, f it.2) = l ≫= f.
Proof.
  unfold enumerate. generalize 0 as k.
  induction l as [|x l IH]; intros k; [done|].
  cbn [length seq zip_with]. rewrite !bind_cons. cbn [snd]. by rewrite IH.
Qed.

(** The record of lines 310-324, when the position is one of the path. *)
Lemma connect_item_Ok (path : row) (h : harness (attribs:=attribs)) i item :
  path !! i = Some item →
  connect_item path h (i, item)
  = Ok (if dict_mem item.1 (cables h) then connect (connection_at path i item) h else h).
Proof.
  intros Hi. pose proof (lookup_lt_Some _ _ _ Hi) as Hlt.
  unfold connect_item, connection_at. destruct (dict_mem item.1 (cables h)); [|done].
  assert (∀ k, k < length path →
            ∃ q, path !! k = Some q ∧ neighbour path k = Ok (Some q.1, Some q.2)) as Hnb.
  { intros k Hk. apply lookup_lt_is_Some_2 in Hk as [[d p] Hq].
    exists (d, p). unfold neighbour. by rewrite Hq. }
  destruct (decide (i = 0)) as [->|Hi0]; simpl.
  - destruct (decide (0 = length path - 1)) as [Hl|Hl]; simpl; [done|].
    destruct (Hnb 1) as (q & Hq & ->); [lia|]. simpl. by rewrite Hq.
  - destruct (Hnb (i - 1)) as (q & Hq & ->); [lia|]. simpl. rewrite Hq.
    destruct (decide (i = length path - 1)) as [Hl|Hl]; simpl; [done|].
    destruct (Hnb (i + 1)) as (q' & Hq' & ->); [lia|]. simpl. by rewrite Hq'.
Qed.

Lemma connect_items_Ok (path : row) (h : harness (attribs:=attribs)) l :
  Forall (λ it, path !! it.1 = Some it.2) l →
  foldM (connect_item path) h l
  = Ok (Harness (connectors h) (cables h)
          (connections h ++
             (l ≫= λ it, if dict_mem it.2.1 (cables h)
                         then [connection_at path it.1 it.2] else []))).
Proof.
  revert h. induction l as [|[i item] l IH]; intros h Hall.
  - simpl. rewrite app_nil_r. by destruct h.
  - apply Forall_cons in Hall as [Hi Hall]. simpl in Hi.
    cbn [foldM]. rewrite connect_item_Ok by done. rewrite bind_cons. cbn [fst snd].
    destruct (dict_mem item.1 (cables h)); simpl; rewrite IH by done; [|done].
    simpl. by rewrite <- app_assoc.
Qed.

Lemma connect_path_Ok (h : harness (attribs:=attribs)) (path : row) :
  connect_path h path
  = Ok (Harness (connectors h) (cables h) (connections h ++ path_connections h path)).
Proof.
  unfold connect_path, path_connections. apply connect_items_Ok.
  apply Forall_forall. intros [i item] Hit. by apply elem_of_enumerate.
Qed.

Lemma connect_components_Ok (h : harness (attribs:=attribs)) (paths : list row) :
  connect_components h paths
  = Ok (Harness (connectors h) (cables h)
          (connections h ++ (paths ≫= path_connections h))).
Proof.
  unfold connect_components. revert h.
  induction paths as [|path paths IH]; intros h.
  - simpl. rewrite app_nil_r. by destruct h.
  - cbn [foldM]. rewrite connect_path_Ok. rewrite bind_cons.
    simpl. rewrite IH. simpl. by rewrite <- app_assoc.
Qed.

(** The end points of the record at a position of the path. *)
Lemma connection_at_ends (path : row) i d p :
  path !! i = Some (d, p) →
  let c := connection_at path i (d, p) in
  via_name c = d ∧ via_pin c = p ∧
  (from_name c = None ↔ i = 0) ∧ (from_pin c = None ↔ i = 0) ∧
  (to_name c = None ↔ i = length path - 1) ∧
  (to_pin c = None ↔ i = length path - 1) ∧
  (i ≠ 0 → ∃ d' p', path !! (i - 1) = Some (d', p') ∧
                    from_name c = Some d' ∧ from_pin c = Some p') ∧
  (i ≠ length path - 1 → ∃ d' p', path !! (i + 1) = Some (d', p') ∧
                    to_name c = Some d' ∧ to_pin c = Some p').
Proof.
  intros Hi. pose proof (lookup_lt_Some _ _ _ Hi) as Hlt.
  unfold connection_at. simpl.
  destruct (decide (i = 0)) as [Hi0|Hi0];
    destruct (decide (i = length path - 1)) as [Hl|Hl]; simpl.
  - split_and!; done.
  - destruct (lookup_lt_is_Some_2 path (i + 1)) as [[d2 p2] H2]; [lia|].
    rewrite H2. simpl. split_and!; try done. eauto.
  - destruct (lookup_lt_is_Some_2 path (i - 1)) as [[d1 p1] H1]; [lia|].
    rewrite H1. simpl. split_and!; try done. eauto.
  - destruct (lookup_lt_is_Some_2 path (i - 1)) as [[d1 p1] H1]; [lia|].
    destruct (lookup_lt_is_Some_2 path (i + 1)) as [[d2 p2] H2]; [lia|].
    rewrite H1, H2. simpl. split_and!; try done; eauto.
Qed.

Lemma elem_of_cable_positions (h : harness (attribs:=attribs)) paths j i :
  (j, i) ∈ cable_positions h paths ↔
  ∃ path d p, paths !! j = Some path ∧ path !! i = Some (d, p) ∧
              dict_mem d (cables h) = true.
Proof.
  unfold cable_positions. rewrite list_elem_of_bind. split.
  - intros ([j' path] & Hin & Hj). apply elem_of_enumerate in Hj.
    apply list_elem_of_bind in Hin as ([i' [d p]] & Hin & Hi).
    apply elem_of_enumerate in Hi. simpl in *.
    destruct (dict_mem d (cables h)) eqn:Hc; [|by apply elem_of_nil in Hin].
    apply list_elem_of_singleton in Hin as [= -> ->]. eauto 6.
  - intros (path & d & p & Hj & Hi & Hc). exists (j, path).
    split; [|by apply elem_of_enumerate].
    apply list_elem_of_bind. exists (i, (d, p)).
    split; [|by apply elem_of_enumerate]. simpl. rewrite Hc.
    by apply list_elem_of_singleton.
Qed.

Lemma NoDup_cable_positions (h : harness (attribs:=attribs)) paths :
  NoDup (cable_positions h paths).
Proof.
  unfold cable_positions. apply NoDup_bind; [| |apply NoDup_enumerate].
  - intros [j1 p1] [j2 p2] [j i] H1 H2 Hy1 Hy2. simpl in *.
    apply elem_of_enumerate in H1, H2.
    apply list_elem_of_bind in Hy1 as ([i1 it1] & Hy1 & _).
    apply list_elem_of_bind in Hy2 as ([i2 it2] & Hy2 & _). simpl in *.
    destruct (dict_mem it1.1 (cables h)); [|by apply elem_of_nil in Hy1].
    destruct (dict_mem it2.1 (cables h)); [|by apply elem_of_nil in Hy2].
    apply list_elem_of_singleton in Hy1 as [= -> ->].
    apply list_elem_of_singleton in Hy2 as [= -> _]. congruence.
  - intros [j path] _. simpl. apply NoDup_bind; [| |apply NoDup_enumerate].
    + intros [i1 it1] [i2 it2] [j' i] H1 H2 Hy1 Hy2. simpl in *.
      apply elem_of_enumerate in H1, H2.
      destruct (dict_mem it1.1 (cables h)); [|by apply elem_of_nil in Hy1].
      destruct (dict_mem it2.1 (cables h)); [|by apply elem_of_nil in Hy2].
      apply list_elem_of_singleton in Hy1 as [= _ ->].
      apply list_elem_of_singleton in Hy2 as [= ->]. congruence.
    + intros [i it] _. simpl. destruct (dict_mem it.1 (cables h)).
      * apply NoDup_singleton.
      * apply NoDup_nil_2.
Qed.

(** C8. The connect pass never fails and adds, for the (path, cable
    position) pairs taken path by path and along each path, exactly one
    record each: its via end point is the cable and its pin; its from end
    point is null exactly at the first chain position and its to end point
    exactly at the last; everywhere else the end point is the
    (designator, pin) of the neighbouring position. The pairs are those
    whose designator is a live cable, each listed once. *)
Theorem connect_components_records (h : harness (attribs:=attribs)) (paths : list row) :
  ∃ emitted,
    connect_components h paths
      = Ok (Harness (connectors h) (cables h) (connections h ++ emitted)) ∧
    Forall2 (λ pos c, ∃ path d p,
        paths !! pos.1 = Some path ∧ path !! pos.2 = Some (d, p) ∧
        via_name c = d ∧ via_pin c = p ∧
        (from_name c = None ↔ pos.2 = 0) ∧ (from_pin c = None ↔ pos.2 = 0) ∧
        (to_name c = None ↔ pos.2 = length path - 1) ∧
        (to_pin c = None ↔ pos.2 = length path - 1) ∧
        (pos.2 ≠ 0 → ∃ d' p', path !! (pos.2 - 1) = Some (d', p') ∧
                              from_name c = Some d' ∧ from_pin c = Some p') ∧
        (pos.2 ≠ length path - 1 → ∃ d' p', path !! (pos.2 + 1) = Some (d', p') ∧
                              to_name c = Some d' ∧ to_pin c = Some p'))
      (cable_positions h paths) emitted ∧
    (∀ j i, (j, i) ∈ cable_positions h paths ↔
            ∃ path d p, paths !! j = Some path ∧ path !! i = Some (d, p) ∧
                        dict_mem d (cables h) = true) ∧
    NoDup (cable_positions h paths).
Proof.
  exists (paths ≫= path_connections h).
  split; [apply connect_components_Ok|].
  split; [|split; [apply elem_of_cable_positions|apply NoDup_cable_positions]].
  rewrite <- (bind_enumerate (path_connections h) paths).
  unfold cable_positions. apply Forall2_bind, Forall_Forall2_diag, Forall_forall.
  intros [j path] Hj. apply elem_of_enumerate in Hj. simpl.
  unfold path_connections. apply Forall2_bind, Forall_Forall2_diag, Forall_forall.
  intros [i [d p]] Hi. apply elem_of_enumerate in Hi. simpl.
  destruct (dict_mem d (cables h)); constructor; [|constructor].
  exists path, d, p. simpl. split; [done|]. split; [done|].
  apply (connection_at_ends path i d p Hi).
Qed.

End ConnectFacts.

(** ** The loop over the connection sets *)

Section BuildFacts.
Variable separator : ascii.
Variable AUTOGENERATED_PREFIX : string.
Variable expand : string → list Z.
Context {attribs : Type} `{EqDecision attribs}.
Variable template_connectors : gmap string attribs.
Variable template_cables : gmap string attribs.

Abbreviation normalize_at := (normalize separator AUTOGENERATED_PREFIX expand (attribs:=attribs)).
Abbreviation process :=
  (process_connection_set separator AUTOGENERATED_PREFIX expand
     template_connectors template_cables).
Abbreviation bindings b := (designators_and_templates (resolver_state b)).

Lemma resolve_entry_preserves e st e' st' d t :
  resolve_entry separator AUTOGENERATED_PREFIX e st = Ok (e', st') →
  designators_and_templates st !! d = Some t →
  designators_and_templates st' !! d = Some t.
Proof.
  destruct e as [s|l|[|[key v] rest]|[|??]]; simpl; intros Hr Hd; try discriminate Hr.
  - by inv_ok.
  - apply bind_Ok in Hr as ([rs st1] & Hrs & Hr). simpl in Hr. inv_ok.
    by eapply resolve_all_preserves.
  - apply bind_Ok in Hr as ([td st1] & Hrs & Hr). simpl in Hr. inv_ok.
    by eapply resolve_designator_preserves.
  - by inv_ok.
Qed.

Lemma resolve_entries_preserve es st es' st' d t :
  mapM_st (resolve_entry separator AUTOGENERATED_PREFIX) es st = Ok (es', st') →
  designators_and_templates st !! d = Some t →
  designators_and_templates st' !! d = Some t.
Proof.
  revert st es'. induction es as [|e es IH]; intros st es' Hm Hd.
  - simpl in Hm. by inv_ok.
  - apply mapM_st_cons_Ok in Hm as (e' & st1 & es1 & He & Hm & ->).
    eapply IH; [done|]. by eapply resolve_entry_preserves.
Qed.

(** An item is generated only for a bound designator (line 272). *)
Lemma generate_components_bound dt (h h' : harness (attribs:=attribs)) rows :
  generate_components template_connectors template_cables dt h rows = Ok h' →
  Forall (Forall (λ item, is_Some (dt !! item.1))) rows.
Proof.
  unfold generate_components. intros Hg. apply bind_Ok in Hg as (st & Hg & _).
  eapply foldM_Forall; [|exact Hg]. clear. intros st r st' Hr.
  unfold generate_row in Hr. apply bind_Ok in Hr as (st1 & Hr & _).
  eapply foldM_Forall; [|exact Hr]. clear. intros [h e] item st'.
  unfold generate_item. destruct (dt !! item.1); [eauto|done].
Qed.

(** One iteration of the loop at line 206, once it has succeeded. *)
Lemma process_connection_set_Ok b i b' :
  process b i = Ok b' →
  ∃ rows b1,
    normalize_at b i = Ok (rows, b1) ∧
    yaml_connections b' = <[i := Recs <$> rows]> (yaml_connections b) ∧
    resolver_state b' = resolver_state b1 ∧
    (∀ d t, bindings b !! d = Some t → bindings b' !! d = Some t) ∧
    Forall (Forall (λ item, is_Some (bindings b' !! item.1))) rows.
Proof.
  unfold process_connection_set. intros Hp.
  apply bind_Ok in Hp as ([rows b1] & Hn & Hp). simpl in Hp.
  apply bind_Ok in Hp as (h & Hg & Hp). apply bind_Ok in Hp as (h1 & Hc & Hp).
  injection Hp as <-. simpl. exists rows, b1. split; [done|].
  apply generate_components_bound in Hg.
  apply normalize_Ok in Hn as (cs & n & resolved & Hcs & _ & Hres & _ & Hst & _).
  split_and!; [done|done| |done].
  intros d t Hd. by eapply resolve_entries_preserve.
Qed.

(** The loop over the positions [k], ..., [k + m - 1] of the store: the
    other positions are left alone; each position in the range holds the
    rows its normalization returned, and their designators are bound. *)
Lemma process_range m k b b' :
  foldM process b (seq k m) = Ok b' →
  length (yaml_connections b') = length (yaml_connections b) ∧
  (∀ d t, bindings b !! d = Some t → bindings b' !! d = Some t) ∧
  (∀ j, (j < k ∨ k + m ≤ j)%nat →
        yaml_connections b' !! j = yaml_connections b !! j) ∧
  (∀ j cs, (k ≤ j < k + m)%nat → yaml_connections b !! j = Some cs →
     ∃ b0 b1 rows,
       yaml_connections b0 !! j = Some cs ∧
       normalize_at b0 j = Ok (rows, b1) ∧
       yaml_connections b' !! j = Some (Recs <$> rows) ∧
       Forall (Forall (λ item, is_Some (bindings b' !! item.1))) rows).
Proof.
  revert k b. induction m as [|m IH]; intros k b Hf; simpl in Hf.
  - injection Hf as <-. split_and!; [done|done|done|]. intros j cs Hj. lia.
  - apply bind_Ok in Hf as (b1 & Hp & Hf).
    apply process_connection_set_Ok in Hp as (rows & bn & Hn & Hst & _ & Hkeep & Hbound).
    apply IH in Hf as (Hlen & Hkeep' & Hframe & Hrange).
    split_and!.
    + by rewrite Hlen, Hst, length_insert.
    + by auto.
    + intros j Hj. rewrite Hframe by lia. rewrite Hst.
      apply list_lookup_insert_ne. lia.
    + intros j cs Hj Hcs. destruct (decide (j = k)) as [->|Hne].
      * exists b, bn, rows. split_and!; [done|done|..].
        -- rewrite Hframe by lia. rewrite Hst.
           apply list_lookup_insert_eq. by eapply lookup_lt_Some.
        -- eapply Forall_impl; [exact Hbound|]. intros r Hr. simpl in Hr.
           eapply Forall_impl; [exact Hr|]. intros item [t Ht]. simpl in Ht.
           exists t. by apply Hkeep'.
      * apply (Hrange j cs); [lia|].
        rewrite Hst. rewrite list_lookup_insert_ne by lia. done.
Qed.

Abbreviation parse_with :=
  (parse separator AUTOGENERATED_PREFIX expand template_connectors template_cables).

(** C9. A connection set of strings, lists and single-key mappings whose
    candidates are all 0 (in particular one whose lists are all empty) is
    refused with the missing-connection-count error: the count 0 is not
    adopted. The build fails with that error as soon as the connection
    sets before it have been processed. *)
Theorem zero_candidates_rejected css i cs b :
  css !! i = Some cs →
  forallb input_entry cs = true →
  Forall (λ c, c = 0) (omap (candidate expand) cs) →
  foldM process (initial_build css) (seq 0 i) = Ok b →
  get_connectioncount expand cs = Err MissingConnectionCountError ∧
  parse_with css = Err MissingConnectionCountError.
Proof.
  intros Hcs Hin Hzero Hpre.
  assert (get_connectioncount expand cs = Err MissingConnectionCountError) as Hcount.
  { unfold get_connectioncount. rewrite connectioncounts_candidates by done.
    simpl. by apply agree_missing. }
  split; [done|].
  pose proof (lookup_lt_Some _ _ _ Hcs) as Hi.
  apply process_range in Hpre as Hrange. destruct Hrange as (_ & _ & Hframe & _).
  assert (process b i = Err MissingConnectionCountError) as Herr.
  { unfold process_connection_set, normalize.
    rewrite Hframe by (simpl; lia). simpl. rewrite Hcs. by rewrite Hcount. }
  unfold parse, process_connection_sets.
  replace (length css) with (i + S (length css - S i)) by lia.
  rewrite seq_app. cbn [seq]. by rewrite (foldM_Err_at _ _ _ _ _ _ _ Hpre Herr).
Qed.

(** C10. The store the loop works on is the connections list of the
    configuration itself, and after a successful build each of its
    connection sets holds, in place of its strings, lists and mappings, the
    rows of (designator, pin) records that its normalization returned, one
    row per entry; every designator in them is bound in the resolver. *)
Theorem connections_normalized_in_place css b bom :
  parse_with css = Ok (b, bom) →
  yaml_connections (initial_build (attribs:=attribs) css) = css ∧
  length (yaml_connections b) = length css ∧
  ∀ i cs, css !! i = Some cs →
    ∃ b0 b1 rows,
      yaml_connections b0 !! i = Some cs ∧
      normalize_at b0 i = Ok (rows, b1) ∧
      yaml_connections b !! i = Some (Recs <$> rows) ∧
      length rows = length cs ∧
      Forall (Forall (λ item, is_Some (bindings b !! item.1))) rows.
Proof.
  unfold parse, process_connection_sets. intros Hp.
  apply bind_Ok in Hp as (b' & Hf & Hp). injection Hp as -> _.
  apply process_range in Hf as (Hlen & _ & _ & Hrange).
  split; [done|]. split; [done|]. intros i cs Hcs.
  destruct (Hrange i cs) as (b0 & b1 & rows & Hcs0 & Hn & Hb & Hbound);
    [pose proof (lookup_lt_Some _ _ _ Hcs); lia|done|].
  exists b0, b1, rows. split_and!; try done. by eapply normalize_length.
Qed.

End BuildFacts.

(** C3, as amended. For a connection set of strings, lists and single-key
    mappings, with the candidates as the description defines them: the
    determination fails with the missing-connection-count error exactly when
    no candidate is nonzero (none at all, or all equal to 0); it fails with
    the mismatch error exactly when two candidates differ; otherwise it
    returns the nonzero count all candidates agree on. The set
    [{X1: 1-4}, {X2: 1-3}] fails with the mismatch error. *)
Theorem connection_count_outcomes :
  (∀ expand cs,
     forallb input_entry cs = true →
     let found := omap (candidate expand) cs in
     (get_connectioncount expand cs = Err MissingConnectionCountError ↔
        Forall (λ c, c = 0) found) ∧
     (get_connectioncount expand cs = Err ConnectionCountMismatchError ↔
        ∃ a b, a ∈ found ∧ b ∈ found ∧ a ≠ b) ∧
     (∀ n, get_connectioncount expand cs = Ok n ↔
        n ≠ 0 ∧ found ≠ [] ∧ Forall (λ c, c = n) found)) ∧
  get_connectioncount spec_expand scenario_D = Err ConnectionCountMismatchError.
Proof.
  split; [|vm_compute; reflexivity].
  intros expand cs Hin found. unfold get_connectioncount.
  rewrite connectioncounts_candidates by done. simpl. fold found.
  split; [apply agree_missing|]. split; [apply agree_mismatch|].
  intros n. apply agree_Ok.
Qed.

(** C3, witness: the two mappings of scenario D, with candidates 4 and 3. *)
Lemma connection_count_outcomes_witness :
  forallb input_entry scenario_D = true ∧
  omap (candidate spec_expand) scenario_D = [4; 3] ∧
  get_connectioncount spec_expand scenario_D = Err ConnectionCountMismatchError.
Proof.
  split; [reflexivity|]. split; [vm_compute; reflexivity|].
  apply (proj1 connection_count_outcomes spec_expand scenario_D); [reflexivity|].
  exists 4, 3. split; [vm_compute; left|]. split; [vm_compute; right; left|lia].
Defined.

(** C3, counterexample: a single empty list yields the candidate 0, and the
    determination fails with the missing-connection-count error. *)
Lemma empty_list_candidate_missing :
  omap (candidate spec_expand) [Lst []] = [0] ∧
  connectioncounts spec_expand [Lst []] = Ok [0] ∧
  get_connectioncount spec_expand [Lst []] = Err MissingConnectionCountError.
Proof. split_and!; vm_compute; reflexivity. Qed.

(** C9, witness: the set [X1, []] as the only connection set. *)
Lemma zero_candidates_rejected_witness :
  let css := [[Str "X1"; Lst []]] in
  omap (candidate spec_expand) [Str "X1"; Lst []] = [0] ∧
  get_connectioncount spec_expand [Str "X1"; Lst []] = Err MissingConnectionCountError ∧
  parse ":" example_prefix spec_expand scenario_connectors scenario_cables css
    = Err MissingConnectionCountError.
Proof.
  split; [vm_compute; reflexivity|].
  apply (zero_candidates_rejected ":" example_prefix spec_expand
           scenario_connectors scenario_cables
           [[Str "X1"; Lst []]] 0 [Str "X1"; Lst []]
           (initial_build [[Str "X1"; Lst []]])).
  - reflexivity.
  - reflexivity.
  - vm_compute. repeat constructor.
  - reflexivity.
Defined.

(** C5, witness: the connection set of scenario A. *)
Lemma normalize_rows_witness :
  ∃ rows b',
    normalize ":" example_prefix spec_expand (initial_build (attribs:=bag) scenario_A) 0
      = Ok (rows, b') ∧
    rows = [[("P1", 1); ("P1", 1); ("P1", 1)];
            [("AUTOGENERATED_CAB1_1", 1); ("AUTOGENERATED_CAB1_1", 2);
             ("AUTOGENERATED_CAB1_1", 3)];
            [("P2", 1); ("P2", 1); ("P2", 1)]]%Z ∧
    ∃ n, get_connectioncount spec_expand [Str "DB9:P1"; Dct [("CAB1:", "1-3")]; Str "DB9:P2"]
           = Ok n ∧
         yaml_connections b' !! 0 = Some (Recs <$> rows) ∧
         length rows = 3.
Proof.
  eexists _, _. split; [vm_compute; reflexivity|]. split; [reflexivity|].
  edestruct (normalize_rows ":" example_prefix spec_expand (attribs:=bag)
               (initial_build scenario_A) 0
               [Str "DB9:P1"; Dct [("CAB1:", "1-3")]; Str "DB9:P2"])
    as (n & Hn & Hstore & Hlen & _); [reflexivity|vm_compute; reflexivity|].
  exists n. split; [exact Hn|]. split; [exact Hstore|exact Hlen].
Defined.

(** C10, witness: the build of scenario A. *)
Lemma connections_normalized_in_place_witness :
  ∃ b bom,
    parse ":" example_prefix spec_expand scenario_connectors scenario_cables scenario_A
      = Ok (b, bom) ∧
    length (yaml_connections b) = 1 ∧
    ∃ rows, yaml_connections b !! 0 = Some (Recs <$> rows) ∧ length rows = 3.
Proof.
  eexists _, _. split; [vm_compute; reflexivity|].
  edestruct (connections_normalized_in_place ":" example_prefix spec_expand
               scenario_connectors scenario_cables scenario_A)
    as (_ & Hlen & Hsets); [vm_compute; reflexivity|].
  split; [exact Hlen|].
  destruct (Hsets 0 _ eq_refl) as (_ & _ & rows & _ & _ & Hrows & Hl & _).
  exists rows. split; [exact Hrows|exact Hl].
Defined.

(** ** Evaluation of the scenarios for an arbitrary reserved prefix *)

Section Evaluation.
Variable separator : ascii.
Variable AUTOGENERATED_PREFIX : string.
Context {attribs : Type} `{EqDecision attribs}.
Variable template_connectors : gmap string attribs.
Variable template_cables : gmap string attribs.
Variable dt : gmap string string.

Lemma resolve_designator_explicit inp template designator dt0 ag :
  str_split separator inp = [template; designator] → designator ≠ "" →
  resolve_designator separator AUTOGENERATED_PREFIX inp (Resolver dt0 ag)
  = dt' ← bind_designator template designator dt0;
    Ok ((template, designator), Resolver dt' ag).
Proof.
  intros Hs Hne. unfold resolve_designator.
  destruct (str_split_two _ _ _ _ Hs) as [-> Hc]. rewrite Hc, Hs.
  rewrite decide_False by lia. by rewrite decide_False by done.
Qed.

Lemma resolve_designator_autogenerate inp template dt0 ag :
  str_split separator inp = [template; ""] →
  resolve_designator separator AUTOGENERATED_PREFIX inp (Resolver dt0 ag)
  = let n := default 0 (ag !! template) + 1 in
    dt' ← bind_designator template (autogenerated_name AUTOGENERATED_PREFIX template n) dt0;
    Ok ((template, autogenerated_name AUTOGENERATED_PREFIX template n),
        Resolver dt' (<[template := n]> ag)).
Proof.
  intros Hs. unfold resolve_designator.
  destruct (str_split_two _ _ _ _ Hs) as [-> Hc]. rewrite Hc, Hs.
  rewrite decide_False by lia. by rewrite decide_True by done.
Qed.

Lemma bind_designator_new template designator dt0 :
  dt0 !! designator = None →
  bind_designator template designator dt0 = Ok (<[designator := template]> dt0).
Proof. intros Hd. unfold bind_designator. by rewrite Hd. Qed.

Lemma bind_designator_same template designator dt0 :
  dt0 !! designator = Some template →
  bind_designator template designator dt0 = Ok dt0.
Proof. intros Hd. unfold bind_designator. rewrite Hd. by rewrite decide_True. Qed.

Lemma dict_mem_nil {V : Type} k : dict_mem (V:=V) k [] = false.
Proof. done. Qed.

Lemma dict_mem_cons {V : Type} k k' (v : V) d :
  dict_mem k ((k', v) :: d) = bool_decide (k = k') || dict_mem k d.
Proof.
  unfold dict_mem. apply eq_true_iff_eq.
  rewrite orb_true_iff, !bool_decide_eq_true. simpl. by rewrite elem_of_cons.
Qed.

Lemma dict_set_nil {V : Type} k (v : V) : dict_set k v [] = [(k, v)].
Proof. done. Qed.

Lemma dict_set_cons_ne {V : Type} k k' (v v' : V) d :
  k' ≠ k → dict_set k v ((k', v') :: d) = (k', v') :: dict_set k v d.
Proof. intros Hne. simpl. by rewrite decide_False. Qed.

Abbreviation gen := (generate_item template_connectors template_cables dt).

(** The four successful branches of lines 274-290. *)
Lemma generate_item_existing_connector h e d p template :
  dt !! d = Some template → dict_mem d (connectors h) = true →
  gen (h, e) (d, p) = e' ← check_type d template connector e; Ok (h, Some e').
Proof. intros Hd Hc. unfold generate_item. simpl. by rewrite Hd, Hc. Qed.

Lemma generate_item_new_connector h e d p template a :
  dt !! d = Some template → dict_mem d (connectors h) = false →
  template_connectors !! template = Some a →
  gen (h, e) (d, p)
  = e' ← check_type d template connector e; Ok (add_connector d a h, Some e').
Proof. intros Hd Hc Ht. unfold generate_item. simpl. by rewrite Hd, Hc, Ht. Qed.

Lemma generate_item_existing_cable h e d p template :
  dt !! d = Some template → dict_mem d (connectors h) = false →
  template_connectors !! template = None → dict_mem d (cables h) = true →
  gen (h, e) (d, p) = e' ← check_type d template cable e; Ok (h, Some e').
Proof.
  intros Hd Hc Ht Hcab. unfold generate_item. simpl. by rewrite Hd, Hc, Ht, Hcab.
Qed.

Lemma generate_item_new_cable h e d p template a :
  dt !! d = Some template → dict_mem d (connectors h) = false →
  template_connectors !! template = None → dict_mem d (cables h) = false →
  template_cables !! template = Some a →
  gen (h, e) (d, p)
  = e' ← check_type d template cable e; Ok (add_cable d a h, Some e').
Proof.
  intros Hd Hc Ht Hcab Hta. unfold generate_item. simpl.
  by rewrite Hd, Hc, Ht, Hcab, Hta.
Qed.

End Evaluation.

#[local] Arguments dict_mem : simpl never.
#[local] Arguments dict_set : simpl never.
#[local] Arguments generate_item : simpl never.

(** Lookups in a map built by insertions, with the keys known to differ. *)
Ltac map_lookup :=
  repeat first [ rewrite lookup_insert_eq | rewrite lookup_insert_ne by done
               | rewrite lookup_empty ].

(** Membership in an insertion-ordered dictionary given by its items. *)
Ltac dict_lookup :=
  simpl;
  repeat first [ rewrite dict_mem_nil | rewrite dict_mem_cons ];
  repeat first [ rewrite bool_decide_eq_true_2 by done
               | rewrite bool_decide_eq_false_2 by done ];
  reflexivity.

(** One call of [resolve_designator] on a token given in full. *)
Ltac resolve_step :=
  match goal with
  | |- context [resolve_designator ?sep ?pfx ?inp (Resolver ?dt ?ag)] =>
      let parts := eval vm_compute in (str_split sep inp) in
      lazymatch parts with
      | [?T; EmptyString] =>
          rewrite (resolve_designator_autogenerate sep pfx inp T dt ag)
            by (vm_compute; reflexivity)
      | [?T; ?D] =>
          rewrite (resolve_designator_explicit sep pfx inp T D dt ag)
            by (first [vm_compute; reflexivity | discriminate])
      end;
      cbn zeta; map_lookup;
      first [ rewrite bind_designator_new by (by map_lookup)
            | rewrite bind_designator_same by (by map_lookup) ];
      simpl
  end.

(** One call of [generate_item]. *)
Ltac generate_step :=
  first
    [ erewrite generate_item_existing_connector
        by first [by map_lookup | dict_lookup]
    | erewrite generate_item_new_connector
        by first [by map_lookup | dict_lookup | vm_compute; reflexivity]
    | erewrite generate_item_existing_cable
        by first [by map_lookup | dict_lookup | vm_compute; reflexivity]
    | erewrite generate_item_new_cable
        by first [by map_lookup | dict_lookup | vm_compute; reflexivity] ];
  simpl; unfold add_connector, add_cable, empty_harness;
  cbn [connectors cables connections];
  repeat first [ rewrite dict_set_nil | rewrite dict_set_cons_ne by done ].

Lemma string_length_app (s1 s2 : string) :
  String.length (s1 +:+ s2) = String.length s1 + String.length s2.
Proof.
  induction s1 as [|a s1 IH]; [done|].
  change (String a s1 +:+ s2) with (String a (s1 +:+ s2)). simpl. by rewrite IH.
Qed.

(** A generated name is not a shorter name, whatever the reserved prefix. *)
Lemma generated_name_longer prefix suffix name :
  String.length name < String.length suffix → prefix +:+ suffix ≠ name.
Proof.
  intros Hlt Heq. apply (f_equal String.length) in Heq.
  rewrite string_length_app in Heq. lia.
Qed.

(** ** The corrections, for every reserved prefix *)

Lemma str_split_none sep s : str_count sep s = 0 → str_split sep s = [s].
Proof.
  induction s as [|c s IH]; simpl; [done|].
  destruct (decide (c = sep)); [lia|]. intros Hc. by rewrite IH.
Qed.

Lemma str_split_join sep t d :
  str_count sep t = 0 → str_count sep d = 0 →
  str_split sep (t +:+ String sep d) = [t; d].
Proof.
  intros Ht Hd. induction t as [|c t IH].
  - change ("" +:+ String sep d) with (String sep d). simpl.
    rewrite decide_True by done. by rewrite str_split_none.
  - change (String c t +:+ String sep d) with (String c (t +:+ String sep d)).
    simpl in *. destruct (decide (c = sep)); [lia|]. by rewrite IH.
Qed.

(** A token that ends in the separator never resolves idempotently: the
    second resolution returns the next name and moves the counter on. *)
Lemma resolve_autogeneration_twice sep prefix inp template st td1 st1 td2 st2 :
  str_split sep inp = [template; ""] →
  resolve_designator sep prefix inp st = Ok (td1, st1) →
  resolve_designator sep prefix inp st1 = Ok (td2, st2) →
  let n := default 0 (autogenerated_designators st !! template) in
  td1 = (template, autogenerated_name prefix template (n + 1)) ∧
  td2 = (template, autogenerated_name prefix template (n + 2)) ∧
  autogenerated_designators st2 !! template = Some (n + 2).
Proof.
  intros Hs H1 H2 n.
  assert (∀ st td st', resolve_designator sep prefix inp st = Ok (td, st') →
            let k := default 0 (autogenerated_designators st !! template) in
            td = (template, autogenerated_name prefix template (k + 1)) ∧
            autogenerated_designators st' !! template = Some (k + 1)) as Hstep.
  { intros st0 td st0' Hr.
    apply resolve_designator_Ok in Hr
      as [(Hc&_)|[(t&d&Hs'&Hne&_)|(t&Hs'&->&Hag&_)]].
    - apply str_split_two in Hs as [Hs _]. congruence.
    - congruence.
    - assert (t = template) as -> by congruence.
      split; [done|]. rewrite Hag. by rewrite lookup_insert_eq. }
  apply Hstep in H1 as [-> Hag1]. apply Hstep in H2 as [-> Hag2].
  simpl in *. rewrite Hag1 in Hag2. simpl in Hag2. fold n in Hag1, Hag2.
  rewrite Hag1. simpl. split; [done|].
  replace (n + 2) with (n + 1 + 1) by lia. done.
Qed.

(** A user may choose a name of the reserved form; the designator generated
    next for the same template is then that very name, and it is accepted. *)
Lemma reserved_name_collides sep prefix template :
  str_count sep template = 0 →
  str_count sep (autogenerated_name prefix template 1) = 0 →
  let name := autogenerated_name prefix template 1 in
  resolve_all sep prefix [template +:+ String sep name; template +:+ String sep ""]
    empty_resolver
  = Ok ([(template, name); (template, name)],
        Resolver {[name := template]} {[template := 1]}).
Proof.
  intros Ht Hn name. fold name in Hn.
  assert (name ≠ "") as Hne.
  { unfold name, autogenerated_name. apply generated_name_longer.
    rewrite string_length_app. simpl. lia. }
  unfold resolve_all, empty_resolver. cbn [mapM_st].
  rewrite (resolve_designator_explicit _ _ _ template name) by (by try apply str_split_join).
  rewrite bind_designator_new by apply lookup_empty. cbn [mbind result_bind].
  rewrite (resolve_designator_autogenerate _ _ _ template) by (by apply str_split_join).
  cbn zeta. rewrite lookup_empty. cbn [default]. change (0 + 1) with 1. fold name.
  rewrite bind_designator_same by apply lookup_insert_eq. simpl.
  reflexivity.
Qed.

(** ** Type alternation *)

(** C2, as amended. Whenever the instantiate pass succeeds, the types of the
    component instances of successive rows alternate between connector and
    cable, from the type of the first row on; an unset cursor accepts either
    type; an item whose component type differs from the expected type makes
    the pass fail with the type-alternation error carrying the expected
    type, the offending designator, its template and its actual type. The
    set [[CAB1:], [CAB2:]], both templates being cables, fails with that
    error naming the second designator. (The set of the two bare strings
    reveals no connection count and is refused before any type is looked
    at.) *)
Theorem types_alternate :
  (∀ (tc tcab : gmap string bag) dt h rows h',
      generate_components tc tcab dt h rows = Ok h' →
      ∃ t0, ∀ i r item, rows !! i = Some r → item ∈ r →
                        kind_of h' item.1 = Some (nth_type t0 i)) ∧
  (∀ d template actual, check_type d template actual None = Ok actual) ∧
  (∀ (tc tcab : gmap string bag) dt h rows1 r1 item r2 rows2 st1 st2 e template actual,
      foldM (generate_row tc tcab dt) (h, None) rows1 = Ok st1 →
      foldM (generate_item tc tcab dt) st1 r1 = Ok st2 →
      st2.2 = Some e →
      component_type tc tcab dt st2.1 item.1 = Ok (template, actual) →
      actual ≠ e →
      generate_components tc tcab dt h (rows1 ++ (r1 ++ item :: r2) :: rows2)
      = Err (TypeAlternationViolationError e item.1 template actual)) ∧
  (∀ prefix,
      parse ":" prefix spec_expand scenario_connectors scenario_B_cables scenario_B_lists
      = Err (TypeAlternationViolationError connector (prefix +:+ "CAB2_1") "CAB2" cable)).
Proof.
  split_and!.
  - intros tc tcab dt h rows h' Hg. unfold generate_components in Hg.
    apply bind_Ok in Hg as ([h1 e1] & Hg & [= <-]).
    apply generate_rows_Ok in Hg as (_ & t0 & _ & Hall).
    exists t0. intros i r item Hi Hit. eapply settled_kind_of, Hall; done.
  - intros d template actual. unfold check_type. simpl. by rewrite decide_False by auto.
  - intros tc tcab dt h rows1 r1 item r2 rows2 [h1 e1] [h2 e2] e template actual
      Hrows Hitems He Hty Hne. simpl in He, Hty. subst e2.
    unfold generate_components. rewrite foldM_app, Hrows. cbn [mbind result_bind foldM].
    assert (generate_row tc tcab dt (h1, e1) (r1 ++ item :: r2)
            = Err (TypeAlternationViolationError e item.1 template actual)) as ->; [|done].
    unfold generate_row. rewrite foldM_app, Hitems. cbn [mbind result_bind foldM].
    by rewrite (generate_item_mismatch _ _ _ _ _ _ _ _ Hty Hne).
  - intros prefix.
    assert (autogenerated_name prefix "CAB1" 1 = prefix +:+ "CAB1_1") as Hn1 by reflexivity.
    assert (autogenerated_name prefix "CAB2" 1 = prefix +:+ "CAB2_1") as Hn2 by reflexivity.
    assert (prefix +:+ "CAB1_1" ≠ prefix +:+ "CAB2_1") as Hne.
    { intros Heq. by apply (inj (String.app _)) in Heq. }
    unfold parse, process_connection_sets, scenario_B_lists.
    cbn [length seq foldM].
    unfold process_connection_set, normalize.
    cbn [initial_build yaml_connections lookup list_lookup].
    change (get_connectioncount spec_expand [Lst ["CAB1:"]; Lst ["CAB2:"]])
      with (Ok (A:=nat) 1).
    simpl. unfold empty_resolver.
    resolve_step. rewrite Hn1. resolve_step. rewrite Hn2.
    set (c1 := prefix +:+ "CAB1_1") in *. set (c2 := prefix +:+ "CAB2_1") in *.
    clearbody c1 c2.
    unfold generate_components, generate_row. cbn [foldM].
    generate_step. generate_step. reflexivity.
Qed.

(** C2, witness: the rows [[W1], [W2]] with W1 and W2 bound to the cable
    templates CAB1 and CAB2. *)
Lemma types_alternate_witness :
  let dt : gmap string string := {["W1" := "CAB1"; "W2" := "CAB2"]} in
  generate_components scenario_connectors scenario_B_cables dt empty_harness
    [[("W1", 1%Z)]; [("W2", 1%Z)]]
  = Err (TypeAlternationViolationError connector "W2" "CAB2" cable).
Proof.
  apply (proj1 (proj2 (proj2 types_alternate))
           scenario_connectors scenario_B_cables {["W1" := "CAB1"; "W2" := "CAB2"]}
           empty_harness [[("W1", 1%Z)]] [] ("W2", 1%Z) [] []
           (Harness [] [("W1", [("wirecount", "3")])] [], Some connector)
           (Harness [] [("W1", [("wirecount", "3")])] [], Some connector)
           connector "CAB2" cable).
  - vm_compute. reflexivity.
  - reflexivity.
  - reflexivity.
  - vm_compute. reflexivity.
  - discriminate.
Defined.

(** C2, counterexample: the set of the two strings CAB1: and CAB2: is refused
    with the missing-connection-count error, not with the type-alternation
    error. *)
Lemma scenario_B_missing_count :
  parse ":" example_prefix spec_expand scenario_connectors scenario_B_cables scenario_B
  = Err MissingConnectionCountError.
Proof. vm_compute. reflexivity. Qed.

(** ** Scenario A *)

(** C1. With DB9 a connector template and CAB1 a cable template with 3 wires,
    the connection set [DB9:P1, {CAB1:: 1-3}, DB9:P2] builds, whatever the
    reserved prefix: P1 and P2 are bound to DB9 and are the connector
    instances, the generated designator prefix+CAB1_1 is bound to CAB1 and is
    the only cable instance; the three connections (P1,1)-(cable,k)-(P2,1),
    k = 1, 2, 3, are emitted and nothing else; the bill of materials has one
    row of quantity 2 for P1 and P2 and one row of quantity 1 for the cable. *)
Theorem scenario_A_build prefix :
  let c := prefix +:+ "CAB1_1" in
  let db9 : bag := [("pincount", "9")] in
  let cab1 : bag := [("wirecount", "3")] in
  parse ":" prefix spec_expand scenario_connectors scenario_cables scenario_A
  = Ok (Build
          [[Recs [("P1", 1%Z); ("P1", 1%Z); ("P1", 1%Z)];
            Recs [(c, 1%Z); (c, 2%Z); (c, 3%Z)];
            Recs [("P2", 1%Z); ("P2", 1%Z); ("P2", 1%Z)]]]
          (Resolver (<["P2" := "DB9"]> (<[c := "CAB1"]> (<["P1" := "DB9"]> ∅)))
                    (<["CAB1" := 1]> ∅))
          (Harness [("P1", db9); ("P2", db9)] [(c, cab1)]
             [mkConnection (Some "P1") (Some 1%Z) c 1%Z (Some "P2") (Some 1%Z);
              mkConnection (Some "P1") (Some 1%Z) c 2%Z (Some "P2") (Some 1%Z);
              mkConnection (Some "P1") (Some 1%Z) c 3%Z (Some "P2") (Some 1%Z)]),
        [mkBomEntry connector db9 2 ["P1"; "P2"]; mkBomEntry cable cab1 1 [c]]).
Proof.
  intros c db9 cab1.
  assert (autogenerated_name prefix "CAB1" 1 = c) as Hn by reflexivity.
  assert (c ≠ "P1") as Hc1 by (by apply generated_name_longer; simpl; lia).
  assert (c ≠ "P2") as Hc2 by (by apply generated_name_longer; simpl; lia).
  (* lines 208-260 *)
  unfold parse, process_connection_sets, scenario_A.
  cbn [length seq foldM].
  unfold process_connection_set, normalize.
  cbn [initial_build yaml_connections lookup list_lookup].
  change (get_connectioncount spec_expand _) with (Ok (A:=nat) 3).
  simpl. unfold empty_resolver.
  do 3 resolve_step. resolve_step. rewrite Hn. clearbody c.
  do 3 resolve_step.
  (* lines 264-297 *)
  unfold generate_components, generate_row. cbn [foldM].
  do 9 generate_step.
  (* lines 302-327 *)
  rewrite connect_components_Ok. simpl.
  unfold path_connections, enumerate. simpl.
  rewrite !dict_mem_cons, !dict_mem_nil.
  rewrite !(bool_decide_eq_false_2 ("P1" = c)), !(bool_decide_eq_false_2 ("P2" = c)),
    !(bool_decide_eq_true_2 (c = c)) by done.
  simpl. unfold populate_bom. simpl. reflexivity.
Qed.

(** * Further properties of the code *)

(** ** resolve_designator: its failures and its effect on the state *)

Section ResolverMore.
Variable separator : ascii.
Variable AUTOGENERATED_PREFIX : string.

Abbreviation resolve' := (resolve_designator separator AUTOGENERATED_PREFIX).
Abbreviation name_of := (autogenerated_name AUTOGENERATED_PREFIX).

Lemma str_count_contains_false inp :
  str_count separator inp = 0 → str_contains separator inp = false.
Proof.
  intros Hc. destruct (str_contains separator inp) eqn:Hin; [|done].
  apply str_contains_count in Hin. lia.
Qed.

Lemma str_split_count_one inp :
  str_count separator inp = 1 →
  ∃ template designator, str_split separator inp = [template; designator].
Proof.
  intros Hc. pose proof (str_split_length separator inp) as Hl. rewrite Hc in Hl.
  destruct (str_split separator inp) as [|t [|d [|??]]]; simpl in Hl; try lia. eauto.
Qed.

(** The designator that a token with one separator stands for in a state. *)
Lemma resolve_designator_one inp template designator st :
  str_split separator inp = [template; designator] →
  let d := if decide (designator = "")
           then name_of template (default 0 (autogenerated_designators st !! template) + 1)
           else designator in
  resolve' inp st
  = dt' ← bind_designator template d (designators_and_templates st);
    Ok ((template, d),
        Resolver dt' (if decide (designator = "")
                      then <[template := default 0 (autogenerated_designators st !! template) + 1]>
                             (autogenerated_designators st)
                      else autogenerated_designators st)).
Proof.
  intros Hs. unfold resolve_designator.
  destruct (str_split_two _ _ _ _ Hs) as [-> Hc]. rewrite Hc, Hs.
  rewrite decide_False by lia. by destruct (decide (designator = "")).
Qed.

(** X1. The failures of [resolve_designator], lines 158-185: a token
    without separator never fails; a token with more than one separator
    always fails with the ambiguous-separator error, whatever the state; a
    token with one separator fails only on a designator bound to another
    template; the unpacking of line 161 never raises. *)
Theorem resolve_designator_failures inp st :
  (str_count separator inp = 0 →
     ∃ st', resolve' inp st = Ok ((inp, inp), st')) ∧
  (1 < str_count separator inp →
     resolve' inp st = Err (AmbiguousSeparatorError inp)) ∧
  (∀ e, resolve' inp st = Err e →
     (1 < str_count separator inp ∧ e = AmbiguousSeparatorError inp) ∨
     (str_count separator inp = 1 ∧
      ∃ designator old template,
        e = DesignatorConflictError designator old template ∧
        designators_and_templates st !! designator = Some old ∧ old ≠ template)).
Proof.
  split_and!.
  - intros Hc. unfold resolve_designator. rewrite str_count_contains_false by done.
    destruct (designators_and_templates st !! inp); eauto.
  - intros Hc. unfold resolve_designator.
    assert (str_contains separator inp = true) as -> by (apply str_contains_count; lia).
    by rewrite decide_True.
  - intros e He.
    destruct (decide (1 < str_count separator inp)) as [Hgt|Hle].
    { left. split; [done|]. unfold resolve_designator in He.
      assert (str_contains separator inp = true) as Hin by (apply str_contains_count; lia).
      rewrite Hin, decide_True in He by done. congruence. }
    destruct (decide (str_count separator inp = 0)) as [H0|H0].
    { exfalso. unfold resolve_designator in He.
      rewrite str_count_contains_false in He by done.
      by destruct (designators_and_templates st !! inp). }
    right. split; [lia|].
    destruct (str_split_count_one inp) as (template & designator & Hs); [lia|].
    rewrite (resolve_designator_one _ _ _ _ Hs) in He. cbn zeta in He.
    unfold bind_designator in He.
    destruct (designators_and_templates st !! _) as [old|] eqn:Hd; [|done].
    destruct (decide (old = template)) as [|Hne]; [done|].
    simpl in He. injection He as <-. eexists _, old, template. by split_and!.
Qed.

(** X2. The effect of a successful resolution on the state, lines 163-184:
    the returned designator is bound afterwards, to the returned template
    when the token has a separator; no other designator is bound, unbound or
    rebound; only the counter of the returned template can move. *)
Theorem resolve_designator_effect inp st template designator st' :
  resolve' inp st = Ok ((template, designator), st') →
  is_Some (designators_and_templates st' !! designator) ∧
  (str_contains separator inp = true →
     designators_and_templates st' !! designator = Some template) ∧
  (∀ d, d ≠ designator →
     designators_and_templates st' !! d = designators_and_templates st !! d) ∧
  (∀ t, t ≠ template →
     autogenerated_designators st' !! t = autogenerated_designators st !! t).
Proof.
  intros Hr.
  assert (∀ t d dt dt', bind_designator t d dt = Ok dt' →
            dt' !! d = Some t ∧ ∀ k, k ≠ d → dt' !! k = dt !! k) as Hbind.
  { intros t d dt dt'. unfold bind_designator.
    destruct (dt !! d) as [old|] eqn:Hd.
    - destruct (decide (old = t)) as [->|]; [|done]. intros [= <-]. auto.
    - intros [= <-]. rewrite lookup_insert_eq. split; [done|].
      intros k Hk. by rewrite lookup_insert_ne. }
  destruct (str_contains separator inp) eqn:Hin.
  - unfold resolve_designator in Hr. rewrite Hin in Hr.
    destruct (decide _); [done|].
    destruct (str_split separator inp) as [|t [|d0 [|??]]] eqn:Hs; try done.
    destruct (decide (d0 = "")) as [->|Hne]; apply bind_Ok in Hr as (dt' & Hb & Hr);
      injection Hr as <- <- <-; apply Hbind in Hb as [Hd Hother]; simpl.
    + split_and!; [by eauto|done|done|]. intros t' Ht'. by rewrite lookup_insert_ne.
    + split_and!; [by eauto|done|done|done].
  - unfold resolve_designator in Hr. rewrite Hin in Hr.
    destruct (designators_and_templates st !! inp) as [t|] eqn:Hd.
    + injection Hr as <- <- <-. rewrite Hd. split_and!; by eauto.
    + injection Hr as <- <- <-. simpl. rewrite lookup_insert_eq.
      split_and!; [by eauto|done| |done]. intros d Hne. by rewrite lookup_insert_ne.
Qed.

Lemma resolve_designator_repeat inp st td st' :
  is_autogeneration_request separator inp = false →
  resolve' inp st = Ok (td, st') → resolve' inp st' = Ok (td, st').
Proof.
  intros Hna Hr.
  apply resolve_designator_Ok in Hr
    as [(Hc&->&Hag&Hd&_)|[(template&designator&Hs&Hne&->&Hag&Hb)|(template&Hs&_)]].
  - unfold resolve_designator. rewrite Hc, Hd. by destruct st'.
  - rewrite (resolve_designator_one _ _ _ _ Hs). cbn zeta.
    rewrite !decide_False by done.
    apply bind_designator_Ok in Hb as (_&_&->). simpl. by destruct st'.
  - assert (is_autogeneration_request separator inp = true) as Ht
      by (apply is_autogeneration_request_spec; eauto).
    congruence.
Qed.

Lemma resolve_all_fixed inp st td n :
  resolve' inp st = Ok (td, st) →
  resolve_all separator AUTOGENERATED_PREFIX (replicate n inp) st = Ok (replicate n td, st).
Proof.
  intros Hr. unfold resolve_all. induction n as [|n IH]; [done|].
  cbn [replicate mapM_st]. rewrite Hr. cbn [mbind result_bind]. rewrite IH. done.
Qed.

(** X3. A string entry is resolved once per parallel connection (lines
    231-242). A token with a designator part, or without separator, gives
    the same designator every time, and the state after the first resolution
    is final; a token that ends in the separator gives as many designators
    as there are copies, numbered consecutively from the counter on. *)
Theorem resolve_string_entry inp st :
  (∀ td st1 n,
     is_autogeneration_request separator inp = false →
     resolve' inp st = Ok (td, st1) →
     resolve_all separator AUTOGENERATED_PREFIX (replicate (S n) inp) st
     = Ok (replicate (S n) td, st1)) ∧
  (∀ template n rs st',
     str_split separator inp = [template; ""] →
     resolve_all separator AUTOGENERATED_PREFIX (replicate n inp) st = Ok (rs, st') →
     let c := default 0 (autogenerated_designators st !! template) in
     rs = (λ k, (template, name_of template k)) <$> seq (c + 1) n ∧
     default 0 (autogenerated_designators st' !! template) = c + n).
Proof.
  split.
  - intros td st1 n Hna Hr. unfold resolve_all. cbn [replicate mapM_st].
    rewrite Hr. cbn [mbind result_bind].
    pose proof (resolve_designator_repeat _ _ _ _ Hna Hr) as Hagain.
    pose proof (resolve_all_fixed _ _ _ n Hagain) as Hall. unfold resolve_all in Hall.
    by rewrite Hall.
  - intros template n. revert st. induction n as [|n IH]; intros st rs st' Hs Hr c.
    + unfold resolve_all in Hr. simpl in Hr. inv_ok. split; [done|lia].
    + unfold resolve_all in Hr. cbn [replicate] in Hr.
      apply mapM_st_cons_Ok in Hr as (td & st1 & rs' & Hone & Hrest & ->).
      rewrite (resolve_designator_one _ _ _ _ Hs) in Hone. cbn zeta in Hone.
      rewrite !decide_True in Hone by done.
      apply bind_Ok in Hone as (dt' & _ & Hone). injection Hone as <- <-.
      apply IH in Hrest as [-> Hcount]; [|done]. simpl in Hcount.
      rewrite lookup_insert_eq in Hcount. simpl in Hcount. fold c in Hcount.
      split; [|lia]. cbn [seq]. rewrite fmap_cons. f_equal.
      simpl. rewrite lookup_insert_eq. simpl. fold c. do 2 f_equal. lia.
Qed.

(** X4. The counters of lines 163-165: after any sequence of resolutions
    from the initial state, the counter kept for a template is the number of
    designators generated for it. *)
Theorem counter_counts_generations toks rs st' template :
  resolve_all separator AUTOGENERATED_PREFIX toks empty_resolver = Ok (rs, st') →
  default 0 (autogenerated_designators st' !! template)
  = length (autogenerated_for separator template (zip toks rs)).
Proof.
  intros Hr.
  destruct (autogenerated_for_consecutive _ _ _ _ _ _ template Hr) as [_ Hc].
  simpl in Hc. rewrite lookup_empty in Hc. simpl in Hc. exact Hc.
Qed.

End ResolverMore.

(** ** The transposition of line 302 *)

Section TransposeFacts.
Context {A : Type}.

Lemma mapM_fmap_option {X B C : Type} (f : B → option C) (g : X → B) (l : list X) :
  mapM f (g <$> l) = mapM (f ∘ g) l.
Proof. induction l as [|x l IH]; [done|]. rewrite fmap_cons. cbn [mapM]. by rewrite IH. Qed.

Lemma zip_star_lookup fuel (rows : list (list A)) j :
  zip_star fuel rows !! j
  = if decide (j < fuel) then mapM (λ r, r !! j) rows else None.
Proof.
  revert rows j. induction fuel as [|fuel IH]; intros rows j; cbn [zip_star].
  { rewrite lookup_nil. destruct (decide (j < 0)); [lia|done]. }
  destruct (mapM head rows) as [heads|] eqn:Hh.
  - destruct j as [|j]; cbn [lookup list_lookup].
    + destruct (decide (0 < S fuel)); [|lia]. rewrite <- Hh. apply mapM_ext.
      intros r. apply head_lookup.
    + change (zip_star fuel (tail <$> rows) !! j
              = if decide (S j < S fuel) then mapM (λ r, r !! S j) rows else None).
      rewrite IH. rewrite mapM_fmap_option.
      destruct (decide (j < fuel)); destruct (decide (S j < S fuel)); try lia; [|done].
      apply mapM_ext. intros r. simpl. apply lookup_tail.
  - rewrite lookup_nil. destruct (decide (j < S fuel)); [|done].
    symmetry. apply mapM_None. apply mapM_None in Hh.
    eapply Exists_impl; [exact Hh|]. intros r Hr. simpl in *.
    destruct r; [done|discriminate].
Qed.

Lemma transpose_lookup_mapM (rows : list (list A)) j path :
  transpose rows !! j = Some path ↔
  rows ≠ [] ∧ mapM (λ r, r !! j) rows = Some path.
Proof.
  unfold transpose. destruct rows as [|r0 rows].
  { rewrite lookup_nil. split; [done|]. by intros [? _]. }
  rewrite zip_star_lookup. destruct (decide (j < length r0)) as [Hj|Hj].
  - split; [by intros ?|by intros [_ ?]].
  - split; [done|]. intros [_ Hm]. exfalso. apply Hj.
    apply mapM_Some in Hm. apply Forall2_cons_inv_l in Hm as (x & ? & Hx & _ & _).
    by eapply lookup_lt_Some.
Qed.

(** X5. What [zip( *rows )] yields, line 302: the path at index [j] exists
    exactly when there is a row and every row has an element at [j]; it
    holds these elements in the order of the rows. *)
Theorem transpose_lookup (rows : list (list A)) j path :
  transpose rows !! j = Some path ↔
  rows ≠ [] ∧ Forall2 (λ r x, r !! j = Some x) rows path.
Proof. rewrite transpose_lookup_mapM. by rewrite mapM_Some. Qed.

Lemma length_by_lookup {B : Type} (l : list B) n :
  (∀ j, is_Some (l !! j) ↔ j < n) → length l = n.
Proof.
  intros Hl. destruct (Nat.lt_trichotomy (length l) n) as [Hlt|[Heq|Hgt]]; [|done|].
  - apply Hl, lookup_lt_is_Some in Hlt. lia.
  - apply lookup_lt_is_Some, Hl in Hgt. lia.
Qed.

Lemma transpose_length (rows : list (list A)) n :
  rows ≠ [] → Forall (λ r, length r = n) rows → length (transpose rows) = n.
Proof.
  intros Hne Hrect. apply length_by_lookup. intros j. split.
  - intros [path Hp]. apply transpose_lookup_mapM in Hp as [_ Hm].
    destruct rows as [|r0 rows]; [done|]. apply Forall_cons in Hrect as [<- _].
    apply mapM_Some, Forall2_cons_inv_l in Hm as (x & ? & Hx & _ & _).
    by eapply lookup_lt_Some.
  - intros Hj. assert (is_Some (mapM (λ r, r !! j) rows)) as [path Hp].
    { apply mapM_is_Some. eapply Forall_impl; [exact Hrect|].
      intros r Hr. simpl in *. apply lookup_lt_is_Some. lia. }
    exists path. by apply transpose_lookup_mapM.
Qed.

(** X6. On a matrix with at least one row and one column, all rows of one
    length, transposing twice gives the matrix back; the transposed matrix
    has one path per column and one position per row. *)
Theorem transpose_involutive (rows : list (list A)) n :
  rows ≠ [] → n ≠ 0 → Forall (λ r, length r = n) rows →
  length (transpose rows) = n ∧
  Forall (λ path, length path = length rows) (transpose rows) ∧
  transpose (transpose rows) = rows.
Proof.
  intros Hne Hn Hrect.
  pose proof (transpose_length rows n Hne Hrect) as Hlen.
  assert (Forall (λ path, length path = length rows) (transpose rows)) as Hpaths.
  { apply Forall_forall. intros path Hp. apply list_elem_of_lookup in Hp as [j Hj].
    apply transpose_lookup in Hj as [_ Hj]. symmetry. by eapply Forall2_length. }
  split_and!; [done|done|].
  assert (transpose rows ≠ []) as Hne' by (intros Hnil; rewrite Hnil in Hlen; simpl in Hlen; lia).
  apply list_eq. intros i. destruct (rows !! i) as [r|] eqn:Hr.
  - apply transpose_lookup. split; [done|].
    apply Forall2_same_length_lookup_2.
    + rewrite Hlen. symmetry. rewrite Forall_forall in Hrect.
      apply Hrect. by eapply list_elem_of_lookup_2.
    + intros j path x Hj Hx. apply transpose_lookup in Hj as [_ Hj].
      destruct (Forall2_lookup_l _ _ _ _ _ Hj Hr) as (y & Hy & Hry). congruence.
  - destruct (transpose (transpose rows) !! i) as [r'|] eqn:Hr'; [|done]. exfalso.
    apply transpose_lookup in Hr' as [_ Hr'].
    destruct (transpose rows) as [|p0 ps] eqn:Ht; [done|].
    apply Forall_cons in Hpaths as [Hp0 _].
    apply Forall2_cons_inv_l in Hr' as (x & ? & Hx & _ & _).
    apply lookup_lt_Some in Hx. apply lookup_ge_None in Hr. lia.
Qed.

End TransposeFacts.

(** ** Invariants of the harness over a build *)


Lemma dict_mem_elem {V : Type} k (d : list (string * V)) :
  dict_mem k d = true ↔ ∃ v, (k, v) ∈ d.
Proof.
  unfold dict_mem. rewrite bool_decide_eq_true, list_elem_of_fmap. split.
  - intros ([k' v] & -> & Hin). eauto.
  - intros [v Hin]. by exists (k, v).
Qed.

Lemma dict_set_fresh {V : Type} k (v : V) d :
  dict_mem k d = false → dict_set k v d = d ++ [(k, v)].
Proof.
  intros Hk. induction d as [|[k' v'] d IH]; [done|].
  rewrite dict_mem_cons in Hk. apply orb_false_iff in Hk as [Hkk Hk].
  apply bool_decide_eq_false in Hkk.
  rewrite dict_set_cons_ne by congruence. by rewrite IH.
Qed.

Lemma dict_mem_prefix {V : Type} k (d d' : list (string * V)) :
  d `prefix_of` d' → dict_mem k d = true → dict_mem k d' = true.
Proof.
  intros [rest ->]. rewrite !dict_mem_elem. intros [v Hv]. exists v.
  apply elem_of_app. by left.
Qed.

Section HarnessInvariants.
Context {attribs : Type} `{EqDecision attribs}.
Variable template_connectors : gmap string attribs.
Variable template_cables : gmap string attribs.

Abbreviation inv := (instances_from_templates template_connectors template_cables).
Abbreviation gen_item' dt := (generate_item template_connectors template_cables dt).
Abbreviation gen_row' dt := (generate_row template_connectors template_cables dt).

(** How one generated item moves the harness. *)
Lemma generate_item_harness dt h e item h' e' :
  gen_item' dt (h, e) item = Ok (h', e') →
  connections h' = connections h ∧
  (h' = h ∨
   (∃ template a, dt !! item.1 = Some template ∧
      dict_mem item.1 (connectors h) = false ∧
      template_connectors !! template = Some a ∧
      connectors h' = connectors h ++ [(item.1, a)] ∧ cables h' = cables h) ∨
   (∃ template a, dt !! item.1 = Some template ∧
      dict_mem item.1 (cables h) = false ∧
      template_connectors !! template = None ∧
      template_cables !! template = Some a ∧
      connectors h' = connectors h ∧ cables h' = cables h ++ [(item.1, a)])).
Proof.
  unfold generate_item. destruct item as [d p]. cbn [fst snd].
  destruct (dt !! d) as [template|] eqn:Hd; [|done].
  destruct (dict_mem d (connectors h)) eqn:Hconn.
  { intros Hg. inv_ok. auto. }
  destruct (template_connectors !! template) as [a|] eqn:Htc.
  { intros Hg. inv_ok. split; [done|]. right; left. exists template, a.
    cbn [add_connector connectors cables]. by rewrite dict_set_fresh. }
  destruct (dict_mem d (cables h)) eqn:Hcab.
  { intros Hg. inv_ok. auto. }
  destruct (template_cables !! template) as [a|] eqn:Htcab; [|done].
  intros Hg. inv_ok. split; [done|]. right; right. exists template, a.
  cbn [add_cable connectors cables]. by rewrite dict_set_fresh.
Qed.

Lemma generate_item_inv dt h e item h' e' :
  gen_item' dt (h, e) item = Ok (h', e') → inv dt h → inv dt h'.
Proof.
  intros Hg (Hc & Hcab & Hnc & Hncab).
  apply generate_item_harness in Hg
    as (_ & [->|[(t & a & Hd & Hfresh & Ht & Hconn & Hcables)
                |(t & a & Hd & Hfresh & Ht & Hta & Hconn & Hcables)]]); [done|..].
  - unfold instances_from_templates. rewrite Hconn, Hcables. split_and!; [|done| |done].
    + intros d' a' [Hin|Hin]%elem_of_app; [by apply Hc|].
      apply list_elem_of_singleton in Hin as [= -> ->]. eauto.
    + rewrite fmap_app. apply NoDup_app. split_and!; [done| |apply NoDup_singleton].
      intros k Hk Hk'. apply list_elem_of_singleton in Hk'. simpl in Hk'. subst k.
      unfold dict_mem in Hfresh. by apply bool_decide_eq_false in Hfresh.
  - unfold instances_from_templates. rewrite Hconn, Hcables. split_and!; [done| |done|].
    + intros d' a' [Hin|Hin]%elem_of_app; [by apply Hcab|].
      apply list_elem_of_singleton in Hin as [= -> ->]. eauto.
    + rewrite fmap_app. apply NoDup_app. split_and!; [done| |apply NoDup_singleton].
      intros k Hk Hk'. apply list_elem_of_singleton in Hk'. simpl in Hk'. subst k.
      unfold dict_mem in Hfresh. by apply bool_decide_eq_false in Hfresh.
Qed.

Lemma generate_item_grows dt h e item h' e' :
  gen_item' dt (h, e) item = Ok (h', e') →
  connectors h `prefix_of` connectors h' ∧ cables h `prefix_of` cables h' ∧
  connections h' = connections h.
Proof.
  intros Hg. apply generate_item_harness in Hg
    as (Hcs & [->|[(t & a & _ & _ & _ & -> & ->)|(t & a & _ & _ & _ & _ & -> & ->)]]);
    split_and!; try done; by apply prefix_app_r.
Qed.

(** The instantiate pass keeps the invariant and only appends instances. *)
Lemma generate_components_inv dt h rows h' :
  generate_components template_connectors template_cables dt h rows = Ok h' →
  (inv dt h → inv dt h') ∧
  connectors h `prefix_of` connectors h' ∧ cables h `prefix_of` cables h' ∧
  connections h' = connections h.
Proof.
  unfold generate_components. intros Hg.
  apply bind_Ok in Hg as ([h1 e1] & Hg & [= <-]).
  assert (∀ r st st', foldM (gen_item' dt) st r = Ok st' →
            (inv dt st.1 → inv dt st'.1) ∧
            connectors st.1 `prefix_of` connectors st'.1 ∧
            cables st.1 `prefix_of` cables st'.1 ∧
            connections st'.1 = connections st.1) as Hitems.
  { induction r as [|item r IH]; intros st st' Hf; simpl in Hf.
    - by inv_ok.
    - apply bind_Ok in Hf as ([h2 e2] & Hitem & Hf). destruct st as [h0 e0].
      pose proof (generate_item_inv _ _ _ _ _ _ Hitem) as Hinv.
      apply generate_item_grows in Hitem as (Hp1 & Hp2 & Hcs).
      apply IH in Hf as (Hinv' & Hp1' & Hp2' & Hcs'). simpl in *.
      split_and!; [by auto|by etrans|by etrans|congruence]. }
  revert Hg. generalize (@None ctype) as e0. revert h.
  induction rows as [|r rows IH]; intros h e0 Hf; simpl in Hf.
  - by inv_ok.
  - apply bind_Ok in Hf as ([h2 e2] & Hrow & Hf). unfold generate_row in Hrow.
    apply bind_Ok in Hrow as ([h3 e3] & Hitems' & Hrow).
    apply bind_Ok in Hrow as (e4 & _ & Hrow). simpl in Hrow. injection Hrow as <- <-.
    apply Hitems in Hitems' as (Hinv & Hp1 & Hp2 & Hcs).
    apply IH in Hf as (Hinv' & Hp1' & Hp2' & Hcs'). simpl in *.
    split_and!; [by auto|by etrans|by etrans|congruence].
Qed.

End HarnessInvariants.

Lemma nth_type_S t0 k : nth_type t0 (S k) = flip (nth_type t0 k).
Proof.
  revert t0. induction k as [|k IH]; intros t0; [done|].
  change (nth_type t0 (S (S k))) with (nth_type (flip t0) (S k)).
  rewrite IH. done.
Qed.

Section BuildInvariants.
Variable separator : ascii.
Variable AUTOGENERATED_PREFIX : string.
Variable expand : string → list Z.
Context {attribs : Type} `{EqDecision attribs}.
Variable template_connectors : gmap string attribs.
Variable template_cables : gmap string attribs.

Abbreviation normalize' := (normalize separator AUTOGENERATED_PREFIX expand (attribs:=attribs)).
Abbreviation process' :=
  (process_connection_set separator AUTOGENERATED_PREFIX expand
     template_connectors template_cables).
Abbreviation build_all :=
  (process_connection_sets separator AUTOGENERATED_PREFIX expand
     template_connectors template_cables).
Abbreviation bindings' b := (designators_and_templates (resolver_state b)).
Abbreviation inv' := (instances_from_templates template_connectors template_cables).

Lemma inv_bindings_grow dt dt' (h : harness (attribs:=attribs)) :
  (∀ d t, dt !! d = Some t → dt' !! d = Some t) → inv' dt h → inv' dt' h.
Proof.
  intros Hgrow (Hc & Hcab & Hn1 & Hn2). split_and!; [| |done|done].
  - intros d a Hin. destruct (Hc d a Hin) as (t & Hd & Ht). eauto.
  - intros d a Hin. destruct (Hcab d a Hin) as (t & Hd & Ht). eauto.
Qed.

Lemma inv_disjoint dt (h : harness (attribs:=attribs)) d :
  inv' dt h → dict_mem d (cables h) = true → dict_mem d (connectors h) = false.
Proof.
  intros (Hc & Hcab & _) Hin. destruct (dict_mem d (connectors h)) eqn:Hconn; [|done].
  apply dict_mem_elem in Hin as [a Ha]. apply dict_mem_elem in Hconn as [a' Ha'].
  destruct (Hcab d a Ha) as (t & Hd & Ht & _). destruct (Hc d a' Ha') as (t' & Hd' & Ht').
  congruence.
Qed.

(** The steps of one iteration of the loop at line 206. *)
Lemma process_connection_set_steps b i b' :
  process' b i = Ok b' →
  ∃ rows b1 h1,
    normalize' b i = Ok (rows, b1) ∧
    harness_state b1 = harness_state b ∧
    (∀ d t, bindings' b !! d = Some t → bindings' b1 !! d = Some t) ∧
    generate_components template_connectors template_cables (bindings' b1)
      (harness_state b) rows = Ok h1 ∧
    b' = Build (yaml_connections b1) (resolver_state b1)
           (Harness (connectors h1) (cables h1)
              (connections h1 ++ (transpose rows ≫= path_connections h1))).
Proof.
  unfold process_connection_set. intros Hp.
  apply bind_Ok in Hp as ([rows b1] & Hn & Hp). simpl in Hp.
  apply bind_Ok in Hp as (h1 & Hg & Hp). apply bind_Ok in Hp as (h2 & Hc & Hp).
  injection Hp as <-. rewrite connect_components_Ok in Hc. injection Hc as <-.
  exists rows, b1, h1.
  pose proof Hn as Hn'.
  apply normalize_Ok in Hn' as (cs & n & resolved & _ & _ & Hres & _ & _ & Hh).
  rewrite Hh in Hg. split_and!; try done.
  intros d t Hd. by eapply resolve_entries_preserve.
Qed.

(** The records emitted for the rows of a successful instantiate pass join
    connectors through cables. *)
Lemma new_connections_join dt (h0 h1 : harness (attribs:=attribs)) rows :
  inv' dt h0 →
  generate_components template_connectors template_cables dt h0 rows = Ok h1 →
  Forall (joins_connectors h1) (transpose rows ≫= path_connections h1).
Proof.
  intros Hinv Hg.
  pose proof (generate_components_inv _ _ _ _ _ _ Hg) as (Hinv1 & _).
  specialize (Hinv1 Hinv).
  unfold generate_components in Hg. apply bind_Ok in Hg as ([h e] & Hg & [= <-]).
  apply generate_rows_Ok in Hg as (_ & t0 & _ & Hsettled).
  assert (∀ j path k item, transpose rows !! j = Some path → path !! k = Some item →
            settled template_connectors dt h item.1 (nth_type t0 k)) as Hcell.
  { intros j path k item Hj Hk. apply transpose_lookup in Hj as [_ Hj].
    destruct (Forall2_lookup_r _ _ _ _ _ Hj Hk) as (r & Hr & Hrj).
    eapply Hsettled; [done|]. by eapply list_elem_of_lookup_2. }
  apply Forall_bind, Forall_forall. intros path Hpath.
  apply list_elem_of_lookup in Hpath as [j Hj]. simpl.
  unfold path_connections. apply Forall_bind, Forall_forall.
  intros [i [d p]] Hi. apply elem_of_enumerate in Hi. simpl.
  destruct (dict_mem d (cables h)) eqn:Hcab; [|constructor].
  constructor; [|constructor].
  pose proof (connection_at_ends path i d p Hi)
    as (Hvia & _ & Hfrom & _ & Hto & _ & Hprev & Hnext). cbn zeta in *.
  assert (nth_type t0 i = cable) as Hcable.
  { pose proof (Hcell _ _ _ _ Hj Hi) as Hs. simpl in Hs.
    destruct (nth_type t0 i); [|done]. simpl in Hs.
    rewrite (inv_disjoint _ _ _ Hinv1 Hcab) in Hs. done. }
  split_and!.
  - by rewrite Hvia.
  - intros d' Hd'. destruct (decide (i = 0)) as [Hi0|Hi0].
    { apply Hfrom in Hi0. congruence. }
    destruct (Hprev Hi0) as (d2 & p2 & Hp2 & Hn2 & _).
    assert (d2 = d') as -> by congruence.
    pose proof (Hcell _ _ _ _ Hj Hp2) as Hs. simpl in Hs.
    destruct i as [|k]; [done|]. rewrite nth_type_S in Hcable.
    replace (S k - 1) with k in Hs by lia.
    destruct (nth_type t0 k); [done|discriminate].
  - intros d' Hd'. destruct (decide (i = length path - 1)) as [Hil|Hil].
    { apply Hto in Hil. congruence. }
    destruct (Hnext Hil) as (d2 & p2 & Hp2 & Hn2 & _).
    assert (d2 = d') as -> by congruence.
    pose proof (Hcell _ _ _ _ Hj Hp2) as Hs. simpl in Hs.
    replace (i + 1) with (S i) in Hs by lia. rewrite nth_type_S, Hcable in Hs.
    done.
Qed.

Lemma joins_connectors_grow (h h' : harness (attribs:=attribs)) c :
  connectors h `prefix_of` connectors h' → cables h `prefix_of` cables h' →
  joins_connectors h c → joins_connectors h' c.
Proof.
  intros Hp1 Hp2 (Hvia & Hfrom & Hto). split_and!.
  - by eapply dict_mem_prefix.
  - intros d Hd. eapply dict_mem_prefix; [done|]. by apply Hfrom.
  - intros d Hd. eapply dict_mem_prefix; [done|]. by apply Hto.
Qed.

(** One iteration: what it keeps and what it only extends. *)
Lemma process_connection_set_inv b i b' :
  process' b i = Ok b' →
  (inv' (bindings' b) (harness_state b) →
   Forall (joins_connectors (harness_state b)) (connections (harness_state b)) →
   inv' (bindings' b') (harness_state b') ∧
   Forall (joins_connectors (harness_state b')) (connections (harness_state b'))) ∧
  connectors (harness_state b) `prefix_of` connectors (harness_state b') ∧
  cables (harness_state b) `prefix_of` cables (harness_state b') ∧
  connections (harness_state b) `prefix_of` connections (harness_state b').
Proof.
  intros Hp.
  apply process_connection_set_steps in Hp
    as (rows & b1 & h1 & Hn & Hh & Hgrow & Hg & ->). simpl.
  pose proof (generate_components_inv _ _ _ _ _ _ Hg) as (Hinv1 & Hp1 & Hp2 & Hcs).
  split_and!; [|done|done|by rewrite Hcs; apply prefix_app_r].
  intros Hinv Hjoin. apply (inv_bindings_grow _ _ _ Hgrow) in Hinv.
  split; [by apply Hinv1|].
  apply Forall_app. split.
  - rewrite Hcs. eapply Forall_impl; [exact Hjoin|]. intros c Hc.
    by apply (joins_connectors_grow (harness_state b)).
  - eapply Forall_impl; [by eapply new_connections_join|]. intros c Hc.
    by apply (joins_connectors_grow h1).
Qed.

Lemma process_range_inv idx b b' :
  foldM process' b idx = Ok b' →
  (inv' (bindings' b) (harness_state b) →
   Forall (joins_connectors (harness_state b)) (connections (harness_state b)) →
   inv' (bindings' b') (harness_state b') ∧
   Forall (joins_connectors (harness_state b')) (connections (harness_state b'))) ∧
  connectors (harness_state b) `prefix_of` connectors (harness_state b') ∧
  cables (harness_state b) `prefix_of` cables (harness_state b') ∧
  connections (harness_state b) `prefix_of` connections (harness_state b').
Proof.
  revert b. induction idx as [|i idx IH]; intros b Hf; simpl in Hf.
  - injection Hf as <-. by split_and!.
  - apply bind_Ok in Hf as (b1 & Hp & Hf).
    apply process_connection_set_inv in Hp as (Hinv & Hp1 & Hp2 & Hp3).
    apply IH in Hf as (Hinv' & Hp1' & Hp2' & Hp3').
    split_and!; [|by etrans|by etrans|by etrans].
    intros Hi Hj. destruct (Hinv Hi Hj) as [Hi1 Hj1]. by apply Hinv'.
Qed.

(** X7. After a successful build every connector instance carries the
    attributes of the connector template its designator is bound to, every
    cable instance those of the cable template its designator is bound to (a
    template that is no connector template), no designator is instantiated
    twice, and none is both a connector and a cable (lines 272-290 with
    157-185). *)
Theorem build_instances_from_templates css b :
  build_all css = Ok b →
  instances_from_templates template_connectors template_cables
    (bindings' b) (harness_state b) ∧
  ∀ d, ¬ (dict_mem d (connectors (harness_state b)) = true ∧
          dict_mem d (cables (harness_state b)) = true).
Proof.
  unfold process_connection_sets. intros Hb.
  apply process_range_inv in Hb as (Hinv & _).
  destruct Hinv as [Hinv _].
  { split_and!; simpl; try (intros ?? Hin; by apply elem_of_nil in Hin); constructor. }
  { constructor. }
  split; [done|]. intros d [Hc Hcab].
  rewrite (inv_disjoint _ _ _ Hinv Hcab) in Hc. done.
Qed.

(** X8. After a successful build every emitted connection runs through a
    live cable, and each of its two ends, where present, is a live
    connector (lines 299-327 with the alternation of lines 189-204). *)
Theorem build_connections_join_connectors css b :
  build_all css = Ok b →
  Forall (joins_connectors (harness_state b)) (connections (harness_state b)).
Proof.
  unfold process_connection_sets. intros Hb.
  apply process_range_inv in Hb as (Hinv & _).
  apply Hinv.
  - split_and!; simpl; try (intros ?? Hin; by apply elem_of_nil in Hin); constructor.
  - constructor.
Qed.


End BuildInvariants.

(** ** The errors of the instantiate pass *)

Section GenerateErrors.
Context {attribs : Type} `{EqDecision attribs}.
Variable template_connectors : gmap string attribs.
Variable template_cables : gmap string attribs.
Variable dt : gmap string string.

Abbreviation gen_item2 := (generate_item template_connectors template_cables dt).
Abbreviation gen_row2 := (generate_row template_connectors template_cables dt).






End GenerateErrors.

(** ** The failures of a build on well-formed connection sets *)


Section TypedFailures.
Variable separator : ascii.
Variable AUTOGENERATED_PREFIX : string.
Variable expand : string → list Z.
Context {attribs : Type}.
Variable template_connectors : gmap string attribs.
Variable template_cables : gmap string attribs.

Abbreviation resolve2 := (resolve_designator separator AUTOGENERATED_PREFIX).
Abbreviation resolve_one2 := (resolve_entry separator AUTOGENERATED_PREFIX).
Abbreviation normalize2 := (normalize separator AUTOGENERATED_PREFIX expand (attribs:=attribs)).
Abbreviation process2 :=
  (process_connection_set separator AUTOGENERATED_PREFIX expand
     template_connectors template_cables).
Abbreviation bound st r :=
  (Forall (λ item : string * Z, is_Some (designators_and_templates st !! item.1)) r).











End TypedFailures.

(** ** A string entry is shorthand for a list *)

Section StringShorthand.
Variable separator : ascii.
Variable AUTOGENERATED_PREFIX : string.
Variable expand : string → list Z.
Context {attribs : Type}.
Variable template_connectors : gmap string attribs.
Variable template_cables : gmap string attribs.

Lemma expand_string_idemp n e : expand_string n (expand_string n e) = expand_string n e.
Proof. by destruct e. Qed.

Lemma count_entries_expand n cs acc counts :
  foldM (count_entry expand) acc cs = Ok counts →
  Forall (λ c, c = n) counts →
  ∀ acc', Forall (λ c, c = n) acc' → (length acc ≤ length acc')%nat →
  ∃ counts', foldM (count_entry expand) acc' (expand_string n <$> cs) = Ok counts' ∧
             Forall (λ c, c = n) counts' ∧ (length counts ≤ length counts')%nat.
Proof.
  revert acc. induction cs as [|e cs IH]; intros acc Hf Hall acc' Hacc' Hlen.
  { simpl in Hf. injection Hf as <-. exists acc'. by split_and!. }
  simpl in Hf. apply bind_Ok in Hf as (acc1 & He & Hf).
  pose proof (foldM_count_entry_elem _ _ _ _ Hf) as [Hsub _].
  assert (∀ c, c ∈ acc1 → c = n) as Hacc1.
  { intros c Hc. by apply (proj1 (Forall_forall _ _) Hall), Hsub. }
  rewrite fmap_cons. cbn [foldM].
  destruct e as [s|l|[|[key v] rest]|l]; simpl in He; try discriminate He;
    injection He as <-; cbn [expand_string count_entry]; simpl.
  - destruct (IH _ Hf Hall (acc' ++ [length (replicate n s)])) as (counts' & ? & ? & ?);
      [|rewrite length_app; simpl; lia|by exists counts'].
    apply Forall_app. split; [done|]. constructor; [|done]. by rewrite length_replicate.
  - destruct (IH _ Hf Hall (acc' ++ [length l])) as (counts' & ? & ? & ?);
      [|rewrite !length_app in *; simpl; lia|by exists counts'].
    apply Forall_app. split; [done|]. constructor; [|done].
    apply Hacc1, elem_of_app. right. by left.
  - destruct (IH _ Hf Hall (acc' ++ [length (expand v)])) as (counts' & ? & ? & ?);
      [|rewrite !length_app in *; simpl; lia|by exists counts'].
    apply Forall_app. split; [done|]. constructor; [|done].
    apply Hacc1, elem_of_app. right. by left.
  - destruct (IH _ Hf Hall (acc' ++ [length l])) as (counts' & ? & ? & ?);
      [|rewrite !length_app in *; simpl; lia|by exists counts'].
    apply Forall_app. split; [done|]. constructor; [|done].
    apply Hacc1, elem_of_app. right. by left.
Qed.

(** Lines 231-233 do not change the count that lines 208-228 compute. *)
Lemma get_connectioncount_expand cs n :
  get_connectioncount expand cs = Ok n →
  get_connectioncount expand (expand_string n <$> cs) = Ok n.
Proof.
  unfold get_connectioncount, connectioncounts. intros Hc.
  apply bind_Ok in Hc as (counts & Hcounts & Hagree).
  apply agree_Ok in Hagree as (Hn & Hne & Hall).
  destruct (count_entries_expand n cs [] counts Hcounts Hall [])
    as (counts' & -> & Hall' & Hlen); [done..|].
  simpl. apply agree_Ok. split_and!; [done| |done].
  intros ->. destruct counts; [done|simpl in Hlen; lia].
Qed.

(** X12. A string entry is shorthand for a list (lines 231-233): in a
    connection set whose count is n, writing each string entry as the list
    of n copies of the string changes nothing in what the loop body does
    with the set: the same error, or the same store, resolver state and
    harness. *)
Theorem string_entry_shorthand b i cs n :
  yaml_connections b !! i = Some cs →
  get_connectioncount expand cs = Ok n →
  process_connection_set separator AUTOGENERATED_PREFIX expand
    template_connectors template_cables
    (Build (<[i := expand_string n <$> cs]> (yaml_connections b))
       (resolver_state b) (harness_state b)) i
  = process_connection_set separator AUTOGENERATED_PREFIX expand
      template_connectors template_cables b i.
Proof.
  intros Hcs Hcount. pose proof (lookup_lt_Some _ _ _ Hcs) as Hi.
  unfold process_connection_set. f_equal. unfold normalize. cbn [yaml_connections
    resolver_state harness_state].
  rewrite Hcs, list_lookup_insert_eq by done.
  rewrite Hcount, (get_connectioncount_expand _ _ Hcount). simpl.
  rewrite list_insert_insert_eq, <- list_fmap_compose.
  rewrite (list_fmap_ext (expand_string n ∘ expand_string n) (expand_string n) cs);
    [done|].
  intros j e _. apply expand_string_idemp.
Qed.

End StringShorthand.

(** ** The table of the bill of materials *)

Lemma mapM_result_Err {X Y : Type} (f : X → result Y) xs e :
  mapM f xs = Err e → ∃ x, x ∈ xs ∧ f x = Err e.
Proof.
  induction xs as [|x xs IH]; [done|]. cbn [mapM].
  destruct (f x) as [y|e1] eqn:Hx; simpl.
  - destruct (mapM f xs) as [ys|e2]; simpl; [done|]. intros [= <-].
    destruct IH as (x' & Hin & Hx'); [done|]. exists x'. split; [by right|done].
  - intros [= <-]. exists x. split; [by left|done].
Qed.

Lemma mapM_result_Ok {X Y : Type} (f : X → result Y) xs :
  Forall (λ x, ∃ y, f x = Ok y) xs → ∃ ys, mapM f xs = Ok ys.
Proof.
  induction 1 as [|x xs [y Hy] _ [ys IH]]; [by exists []|].
  exists (y :: ys). cbn [mapM]. by rewrite Hy, IH.
Qed.

Section BomTableFacts.
Variable lower : string → string.

Lemma row_cells_result bom0 row k html :
  match foldM (row_cell lower bom0) html (zip (seq k (length row)) row) with
  | Ok _ => row = [] ∨ (k + length row ≤ length bom0)%nat
  | Err e => e = PyIndexError ∧ (length bom0 < k + length row)%nat
  end.
Proof.
  revert k html. induction row as [|item row IH]; intros k html; [by left|].
  cbn [length seq zip_with zip foldM]. unfold row_cell at 2. cbn [fst snd].
  destruct (bom0 !! k) as [title|] eqn:Hk; simpl.
  - apply lookup_lt_Some in Hk.
    match goal with |- context [foldM _ ?h _] => specialize (IH (S k) h) end.
    destruct (foldM _ _ _) as [?|e].
    + right. destruct IH as [->|?]; simpl; lia.
    + destruct IH as [-> ?]. split; [done|]. simpl. lia.
  - apply lookup_ge_None in Hk. split; [done|]. simpl. lia.
Qed.

Lemma row_html_result bom0 row :
  match row_html lower bom0 row with
  | Ok _ => (length row ≤ length bom0)%nat
  | Err e => e = PyIndexError ∧ (length bom0 < length row)%nat
  end.
Proof.
  unfold row_html, enumerate. pose proof (row_cells_result bom0 row 0 ("  <tr>" +:+ newline)) as H.
  destruct (foldM _ _ _) as [?|e]; simpl; [|done].
  destruct H as [->|?]; simpl; lia.
Qed.

(** X13. The table of the bill of materials (wv_html.py, lines 33-53) is
    built exactly when the flattened list has a title row and no row is
    longer than the title row; shorter rows are accepted. Otherwise the
    only failure is the index error of [bom[0]] (line 37) or of
    [bom[0][i]] (line 47). *)
Theorem bom_tables_built bom :
  ((∃ tables, bom_tables lower bom = Ok tables) ↔
   ∃ bom0 rows, bom = bom0 :: rows ∧
                Forall (λ row, (length row ≤ length bom0)%nat) rows) ∧
  (∀ e, bom_tables lower bom = Err e → e = PyIndexError).
Proof.
  destruct bom as [|bom0 rows]; simpl.
  { split; [|by intros e [= <-]]. split; [by intros [??]|by intros (?&?&?&?)]. }
  split; [split|].
  - intros [tables Ht]. exists bom0, rows. split; [done|].
    destruct (mapM _ rows) as [contents|] eqn:Hm; [|done].
    apply mapM_Ok_Forall2 in Hm. clear Ht.
    induction Hm as [|row html rows contents Hrow _ IH]; constructor; [|done].
    pose proof (row_html_result bom0 row) as Hr. by rewrite Hrow in Hr.
  - intros (? & ? & [= <- <-] & Hall).
    destruct (mapM_result_Ok (row_html lower bom0) rows) as [contents ->]; [|by eexists].
    eapply Forall_impl; [exact Hall|]. intros row Hlen. simpl in Hlen.
    pose proof (row_html_result bom0 row) as Hr.
    destruct (row_html lower bom0 row) as [html|e]; [by eexists|lia].
  - intros e He. destruct (mapM _ rows) as [contents|e'] eqn:Hm; [done|].
    simpl in He. injection He as <-.
    apply mapM_result_Err in Hm as (row & _ & Hrow).
    pose proof (row_html_result bom0 row) as Hr. rewrite Hrow in Hr. by destruct Hr.
Qed.

End BomTableFacts.

(** ** Instances of the properties above *)

(** X2, witness: the token DB9:P1, first seen in the empty state. *)
Lemma resolve_designator_effect_witness :
  let st' := Resolver {["P1" := "DB9"]} ∅ in
  resolve_designator ":" example_prefix "DB9:P1" empty_resolver
    = Ok (("DB9", "P1"), st') ∧
  designators_and_templates st' !! "P1" = Some "DB9".
Proof.
  split; [vm_compute; reflexivity|].
  apply (resolve_designator_effect ":" example_prefix "DB9:P1" empty_resolver "DB9" "P1");
    vm_compute; reflexivity.
Defined.

(** X4, witness: two generations for CAB1 around a user-chosen P1. *)
Lemma counter_counts_generations_witness :
  let toks := ["CAB1:"; "DB9:P1"; "CAB1:"] in
  let rs := [("CAB1", "AUTOGENERATED_CAB1_1"); ("DB9", "P1"); ("CAB1", "AUTOGENERATED_CAB1_2")] in
  let st' := Resolver {["AUTOGENERATED_CAB1_1" := "CAB1"; "P1" := "DB9";
                        "AUTOGENERATED_CAB1_2" := "CAB1"]} {["CAB1" := 2]} in
  resolve_all ":" example_prefix toks empty_resolver = Ok (rs, st') ∧
  default 0 (autogenerated_designators st' !! "CAB1")
  = length (autogenerated_for ":" "CAB1" (zip toks rs)).
Proof.
  split; [vm_compute; reflexivity|].
  apply (counter_counts_generations ":" example_prefix ["CAB1:"; "DB9:P1"; "CAB1:"]).
  vm_compute. reflexivity.
Defined.

(** X6, witness: two rows of three records. *)
Lemma transpose_involutive_witness :
  let rows := [[1; 2; 3]; [4; 5; 6]] in
  transpose rows = [[1; 4]; [2; 5]; [3; 6]] ∧
  transpose (transpose rows) = rows.
Proof.
  split; [reflexivity|].
  apply (transpose_involutive [[1; 2; 3]; [4; 5; 6]] 3);
    [discriminate|discriminate|repeat constructor].
Defined.

(** X7, witness: the build of scenario A. *)
Lemma build_instances_from_templates_witness :
  ∃ b,
    process_connection_sets ":" example_prefix spec_expand
      scenario_connectors scenario_cables scenario_A = Ok b ∧
    instances_from_templates scenario_connectors scenario_cables
      (designators_and_templates (resolver_state b)) (harness_state b).
Proof.
  eexists. split; [vm_compute; reflexivity|].
  apply (build_instances_from_templates ":" example_prefix spec_expand
           scenario_connectors scenario_cables scenario_A).
  vm_compute. reflexivity.
Defined.

(** X8, witness: the build of scenario A. *)
Lemma build_connections_join_connectors_witness :
  ∃ b,
    process_connection_sets ":" example_prefix spec_expand
      scenario_connectors scenario_cables scenario_A = Ok b ∧
    length (connections (harness_state b)) = 3 ∧
    Forall (joins_connectors (harness_state b)) (connections (harness_state b)).
Proof.
  eexists. split; [vm_compute; reflexivity|]. split; [reflexivity|].
  apply (build_connections_join_connectors ":" example_prefix spec_expand
           scenario_connectors scenario_cables scenario_A).
  vm_compute. reflexivity.
Defined.




(** X12, witness: the set of scenario A, whose count is 3. *)
Lemma string_entry_shorthand_witness :
  let cs := [Str "DB9:P1"; Dct [("CAB1:", "1-3")]; Str "DB9:P2"] in
  let cs' := [Lst ["DB9:P1"; "DB9:P1"; "DB9:P1"]; Dct [("CAB1:", "1-3")];
              Lst ["DB9:P2"; "DB9:P2"; "DB9:P2"]] in
  get_connectioncount spec_expand cs = Ok 3 ∧
  process_connection_set ":" example_prefix spec_expand
    scenario_connectors scenario_cables (initial_build [cs']) 0
  = process_connection_set ":" example_prefix spec_expand
      scenario_connectors scenario_cables (initial_build [cs]) 0.
Proof.
  split; [vm_compute; reflexivity|].
  apply (string_entry_shorthand ":" example_prefix spec_expand
           scenario_connectors scenario_cables
           (initial_build [[Str "DB9:P1"; Dct [("CAB1:", "1-3")]; Str "DB9:P2"]]) 0
           [Str "DB9:P1"; Dct [("CAB1:", "1-3")]; Str "DB9:P2"] 3);
    [reflexivity|vm_compute; reflexivity].
Defined.
